(** * Monte Carlo path simulators: geometric Brownian motion and Heston

    A shallow embedding of [process.py] and the properties of its two
    [simulate] methods.

    Numbers.  The program computes on IEEE doubles through NumPy.  The
    embedding idealises them as real numbers extended with one value [nan]:
    rounding and overflow are left out, while the one invalid operation the
    program can perform, the square root of a negative number, yields [nan]
    as NumPy does, and [nan] propagates through arithmetic and fails every
    comparison.

    The arguments of a call are real numbers, and the counts [n] and [m]
    are natural numbers: NumPy refuses a negative dimension.

    Randomness.  NumPy's process-wide generator is a state that is threaded
    through each call; what a given state draws is a parameter
    ([Generator]).

    Exceptions.  A call returns a result or raises: [ZeroDivisionError] for
    [m = 0], [ValueError] for a seed NumPy refuses, [IndexError] for a row
    that does not exist. *)

From Stdlib Require Import Reals Lra ZArith Lia.
From stdpp Require Import base list option.

Local Open Scope R_scope.

#[global] Instance Rlt_decision (x y : R) : Decision (x < y) := Rlt_dec x y.

(** ** Exceptions *)

Inductive exn : Set := ZeroDivisionError | ValueError | IndexError.

Inductive result (A : Type) : Type :=
  | Ok (a : A)
  | Raise (e : exn).
Arguments Ok {A} a.
Arguments Raise {A} e.

#[global] Instance result_ret : MRet result := @Ok.
#[global] Instance result_bind : MBind result :=
  λ A B f r, match r with Ok a => f a | Raise e => Raise e end.

(** ** The NumPy operations the program uses *)

Module np.

(** An array entry: a real number, or [nan]. *)
Definition num : Type := option R.
Definition nan : num := None.
Definition real (x : R) : num := Some x.

Definition lift1 (f : R → R) (a : num) : num :=
  match a with Some x => Some (f x) | None => nan end.
Definition lift2 (f : R → R → R) (a b : num) : num :=
  match a, b with Some x, Some y => Some (f x y) | _, _ => nan end.

Definition add : num → num → num := lift2 Rplus.
Definition sub : num → num → num := lift2 Rminus.
Definition mul : num → num → num := lift2 Rmult.
Definition div : num → num → num := lift2 Rdiv.
Definition neg : num → num := lift1 Ropp.
Definition square (a : num) : num := mul a a.

(** [a > b]: false as soon as one side is [nan]. *)
Definition gt (a b : num) : bool :=
  match a, b with Some x, Some y => bool_decide (y < x) | _, _ => false end.

(** [np.sqrt]: [nan] (and a warning) on a negative argument. *)
Definition sqrt (a : num) : num :=
  match a with
  | Some x => if bool_decide (x < 0) then nan else Some (R_sqrt.sqrt x)
  | None => nan
  end.

Definition exp : num → num := lift1 Rtrigo_def.exp.

(** One- and two-dimensional arrays; a matrix is the list of its rows. *)
Abbreviation arr1 := (list num).
Abbreviation arr2 := (list (list num)).

(** A function applied to every entry of a matrix. *)
Abbreviation elementwise f a := (fmap (M := list) (fmap (M := list) f) a).

Definition zeros (rows cols : nat) : arr2 := replicate rows (replicate cols (real 0)).
Definition ones (n : nat) : arr1 := replicate n (real 1).

(** [a[i]]. *)
Definition getitem {A} (a : list A) (i : nat) : result A :=
  match a !! i with Some r => Ok r | None => Raise IndexError end.

(** [a[i] = r], for a row [r]. *)
Definition setitem {A} (a : list A) (i : nat) (r : A) : result (list A) :=
  if decide (i < length a)%nat then Ok (<[i := r]> a) else Raise IndexError.

(** [a[i] = c], for a scalar [c] broadcast over the row. *)
Definition setitem_scalar (a : arr2) (i : nat) (c : num) : result arr2 :=
  r ← getitem a i; setitem a i ((λ _, c) <$> r).

(** [np.cumsum(a, axis=0)]: the running sum of the rows. *)
Fixpoint cumsum_from (acc : arr1) (a : arr2) : arr2 :=
  match a with
  | [] => []
  | r :: a' => let acc' := zip_with add acc r in acc' :: cumsum_from acc' a'
  end.
Definition cumsum (a : arr2) : arr2 :=
  match a with
  | [] => []
  | r :: a' => r :: cumsum_from r a'
  end.

(** [np.linspace(start, stop, num)]: [arange(num) * step + start] with
    [step = (stop - start) / (num - 1)], the last sample set to [stop]. *)
Definition linspace (start stop : R) (num : nat) : arr1 :=
  let delta := stop - start in
  let y :=
    if decide (1 < num)%nat
    then (λ j, real (INR j * (delta / INR (num - 1)) + start)) <$> seq 0 num
    else (λ j, real (INR j * delta + start)) <$> seq 0 num in
  if decide (1 < num)%nat then <[(num - 1)%nat := real stop]> y else y.

(** [np.where(v > 0, v, -v)], entry by entry. *)
Definition where_pos_else_neg (v : arr2) : arr2 :=
  np.elementwise (λ e, if gt e (real 0) then e else neg e) v.

End np.

Declare Scope np_scope.
Delimit Scope np_scope with np.
Bind Scope np_scope with np.num.
Infix "+" := np.add : np_scope.
Infix "-" := np.sub : np_scope.
Infix "*" := np.mul : np_scope.
Infix "/" := np.div : np_scope.
Notation "- x" := (np.neg x) : np_scope.
Notation "$ x" := (np.real x) (at level 9, x at level 9, format "$ x") : np_scope.

(** Python's true division of a float by an int. *)
Definition truediv (a : R) (m : nat) : result R :=
  if decide (m = 0)%nat then Raise ZeroDivisionError else Ok (a / INR m).

(** ** The process-wide generator *)

(** What NumPy's generator does is not part of the program: [seed_state s]
    is the state [np.random.seed(s)] installs and [gauss] draws one standard
    normal deviate, returning the next state. *)
Class Generator : Type := {
  rng : Type;
  seed_state : Z → rng;
  gauss : rng → R * rng;
}.

Section Random.
Context `{G : Generator}.

(** A computation that reads and advances the generator, and may raise. *)
Definition sim (A : Type) : Type := rng → result A * rng.

#[global] Instance sim_ret : MRet sim := λ A a g, (Ok a, g).
#[global] Instance sim_bind : MBind sim :=
  λ A B f c g, match c g with
               | (Ok a, g') => f a g'
               | (Raise e, g') => (Raise e, g')
               end.

Definition lift {A} (r : result A) : sim A := λ g, (r, g).

(** [np.random.seed(s)]: refuses a seed outside [0, 2**32 - 1]. *)
Definition random_seed (s : Z) : sim unit :=
  λ g, if bool_decide (0 ≤ s ≤ 2 ^ 32 - 1)%Z
       then (Ok (), seed_state s)
       else (Raise ValueError, g).

(** [np.random.randn(rows, cols)]: the deviates are drawn one after the
    other, row by row. *)
Fixpoint random_row (cols : nat) : sim np.arr1 :=
  match cols with
  | O => mret []
  | S c => λ g, let '(z, g') := gauss g in
                (zs ← random_row c; mret (np.real z :: zs)) g'
  end.
Fixpoint random_randn (rows cols : nat) : sim np.arr2 :=
  match rows with
  | O => mret []
  | S r => row ← random_row cols; rest ← random_randn r cols; mret (row :: rest)
  end.

(** Python's truth value of the [seed] argument: [None] and [0] are false. *)
Definition truthy (seed : option Z) : bool :=
  match seed with Some s => negb (s =? 0)%Z | None => false end.

(** [if seed: np.random.seed(seed)] *)
Definition seed_guard (seed : option Z) : sim unit :=
  match seed with
  | Some s => if truthy seed then random_seed s else mret ()
  | None => mret ()
  end.

End Random.

(** ** [GeometricBrownianMotion]

    [StochasticProcess], the abstract base of the two classes, declares
    [simulate] without arguments and carries no behaviour. *)

Module GeometricBrownianMotion.

Record t : Type := { mu : R; sigma : R }.

Section simulate.
Context `{G : Generator}.

(** The Brownian path [W] of a call: lines 36-43. *)
Definition brownian (T : R) (n m : nat) (antithetic : bool) (seed : option Z)
  : sim np.arr2 :=
  _ ← seed_guard seed;
  let signe : R := if antithetic then -1 else 1 in
  dt ← lift (truediv T m);
  z ← random_randn (m + 1) n;
  let W := np.elementwise (λ c, $signe * c)%np
             (np.cumsum
                (np.elementwise (λ e, np.sqrt $dt * e)%np z)) in
  lift (np.setitem_scalar W 0 $0).

(** The time grid and the closed form: lines 45-47. *)
Definition prices (self : t) (s0 T : R) (n m : nat) (W : np.arr2) : np.arr2 :=
  let T := (λ t, (λ one, one * t)%np <$> np.ones n) <$> np.linspace 0 T (m + 1) in
  zip_with
    (zip_with
       (λ t w, $s0 * np.exp ($(mu self - 0.5 * sigma self ^ 2) * t + $(sigma self) * w))%np)
    T W.

Definition simulate (self : t) (s0 T : R) (n m : nat) (v0 : option R)
    (antithetic : bool) (seed : option Z) : sim np.arr2 :=
  W ← brownian T n m antithetic seed;
  mret (prices self s0 T n m W).

End simulate.

End GeometricBrownianMotion.

(** ** [HestonProcess] *)

Module HestonProcess.

Record t : Type := {
  mu : R;
  kappa : R;
  theta : R;
  eta : R;
  rho : R;
  milstein : bool;
}.

(** What [simulate] returns: [s], or the pair [(s, v)]. *)
Inductive output : Type :=
  | Prices (s : np.arr2)
  | PricesAndVol (s v : np.arr2).

(** The right-hand side of the variance update (lines 96-101), for one
    path: [v] is the entry of [v[i]] and [z] that of [z1[i]]. *)
Definition variance_update (self : t) (dt : R) (v z : np.num) : np.num :=
  (v
   + $(kappa self) * ($(theta self) - v) * $dt
   + $(eta self) * np.sqrt (v * $dt) * z
   + (if milstein self
      then $(eta self ^ 2 / 4) * (np.square z - $1) * $dt
      else $0))%np.

(** The right-hand side of the log-price update (line 104), for one path. *)
Definition logprice_update (self : t) (dt : R) (x v z : np.num) : np.num :=
  (x + ($(mu self) - v / $2) * $dt + np.sqrt (v * $dt) * z)%np.

(** The three grids the loop carries. *)
Record grids : Type := { s : np.arr2; x : np.arr2; v : np.arr2 }.

(** The body of [for i in range(m)]: lines 96-106. *)
Definition step (self : t) (dt : R) (z1 z2 : np.arr2) (st : grids) (i : nat)
  : result grids :=
  v_i ← np.getitem (v st) i;
  z1_i ← np.getitem z1 i;
  v' ← np.setitem (v st) (i + 1) (zip_with (variance_update self dt) v_i z1_i);
  let v' := np.where_pos_else_neg v' in
  x_i ← np.getitem (x st) i;
  v_i ← np.getitem v' i;
  z2_i ← np.getitem z2 i;
  x' ← np.setitem (x st) (i + 1)
         (zip_with (λ xv z, logprice_update self dt xv.1 xv.2 z) (zip x_i v_i) z2_i);
  s_0 ← np.getitem (s st) 0;
  let s' := take 1 (s st)
            ++ ((λ r, zip_with (λ a e, a * np.exp e)%np s_0 r) <$> drop 1 x') in
  mret {| s := s'; x := x'; v := v' |}.

(** [for i in range(m): ...] *)
Fixpoint loop (body : grids → nat → result grids) (st : grids) (range : list nat)
  : result grids :=
  match range with
  | [] => mret st
  | i :: range' => st' ← body st i; loop body st' range'
  end.

(** Lines 87-92: the grids at the entry of the loop. *)
Definition initial (s0 v0 : R) (n m : nat) : result grids :=
  let s := np.zeros (m + 1) n in
  let x := np.zeros (m + 1) n in
  let v := np.zeros (m + 1) n in
  s ← np.setitem_scalar s 0 $s0;
  v ← np.setitem_scalar v 0 $v0;
  mret {| s := s; x := x; v := v |}.

(** Lines 87-106: the grids from the noise. *)
Definition paths (self : t) (s0 v0 dt : R) (n m : nat) (z1 z2 : np.arr2)
  : result grids :=
  st ← initial s0 v0 n m;
  loop (step self dt z1 z2) st (seq 0 m).

Section simulate.
Context `{G : Generator}.

(** Lines 81-85: the two noise grids. *)
Definition noise (self : t) (n m : nat) (antithetic : bool)
  : sim (np.arr2 * np.arr2) :=
  z1 ← random_randn m n;
  e ← random_randn m n;
  let z2 := zip_with
              (zip_with (λ a b, $(rho self) * a
                                + np.sqrt $(1 - rho self ^ 2) * b)%np) z1 e in
  let signe : R := if antithetic then -1 else 1 in
  let z1 := np.elementwise (λ a, a * $signe)%np z1 in
  let z2 := np.elementwise (λ a, a * $signe)%np z2 in
  mret (z1, z2).

Definition simulate (self : t) (s0 v0 T : R) (n m : nat) (return_vol : bool)
    (antithetic : bool) (seed : option Z) : sim output :=
  _ ← seed_guard seed;
  dt ← lift (truediv T m);
  z ← noise self n m antithetic;
  st ← lift (paths self s0 v0 dt n m z.1 z.2);
  mret (if negb return_vol then Prices (s st) else PricesAndVol (s st) (v st)).

End simulate.

End HestonProcess.

(** ** A generator to run the simulators on

    A counter: seeding installs the seed itself, and a state [k] draws the
    deviate [k] and moves to [k + 1]. *)
#[local] Instance counter : Generator := {|
  rng := Z;
  seed_state := λ s, s;
  gauss := λ k, (IZR k, (k + 1)%Z);
|}.

(** * Properties *)

(** ** Vocabulary *)

(** A matrix of [rows] rows, each of [cols] entries. *)
Definition shape (a : np.arr2) (rows cols : nat) : Prop :=
  length a = rows ∧ Forall (λ r, length r = cols) a.

(** An entry that is a number (not [nan]) and is at least zero. *)
Definition nonneg (e : np.num) : Prop := ∃ x : R, e = np.real x ∧ 0 <= x.

(** An entry that is a number. *)
Definition is_real (e : np.num) : Prop := ∃ x : R, e = np.real x.

(** The absolute value of an entry. *)
Definition absn (e : np.num) : np.num := np.lift1 Rabs e.

(** A seed [np.random.seed] accepts. *)
Definition seed_ok (seed : option Z) : Prop :=
  match seed with Some s => (0 ≤ s ≤ 2 ^ 32 - 1)%Z | None => True end.

(** The entry of row [i] and column [k], when there is one. *)
Definition entry (a : np.arr2) (i k : nat) : option np.num := a !! i ≫= (.!! k).

(** The grids at the entry of the loop. *)
Definition initial_grids (s0 v0 : R) (n m : nat) : HestonProcess.grids :=
  {| HestonProcess.s := <[0%nat := replicate n (np.real s0)]> (np.zeros (m + 1) n);
     HestonProcess.x := np.zeros (m + 1) n;
     HestonProcess.v := <[0%nat := replicate n (np.real v0)]> (np.zeros (m + 1) n) |}.

(** The three grids have [m + 1] rows and [n] columns. *)
Definition grids_shape (st : HestonProcess.grids) (m n : nat) : Prop :=
  shape (HestonProcess.s st) (m + 1) n
  ∧ shape (HestonProcess.x st) (m + 1) n
  ∧ shape (HestonProcess.v st) (m + 1) n.

(** What holds of the grids at the head of every iteration. *)
Definition loop_inv (s0 v0 : R) (m n : nat) (st : HestonProcess.grids) : Prop :=
  grids_shape st m n
  ∧ HestonProcess.s st !! 0%nat = Some (replicate n (np.real s0))
  ∧ (HestonProcess.v st !! 0%nat = Some (replicate n (np.real v0))
     ∨ HestonProcess.v st !! 0%nat = Some (replicate n (np.real (Rabs v0)))).

(** The process [self] with its Milstein flag set to [b]. *)
Definition with_milstein (b : bool) (self : HestonProcess.t) : HestonProcess.t :=
  {| HestonProcess.mu := HestonProcess.mu self;
     HestonProcess.kappa := HestonProcess.kappa self;
     HestonProcess.theta := HestonProcess.theta self;
     HestonProcess.eta := HestonProcess.eta self;
     HestonProcess.rho := HestonProcess.rho self;
     HestonProcess.milstein := b |}.

(** The Milstein term of one step, for the deviate [z]. *)
Definition milstein_term (self : HestonProcess.t) (dt : R) (z : np.num) : np.num :=
  ($(HestonProcess.eta self ^ 2 / 4) * (np.square z - $1) * $dt)%np.

(** ** Two processes to run

    The parameters of the specification's concrete scenarios. *)
Definition gbm_example : GeometricBrownianMotion.t :=
  {| GeometricBrownianMotion.mu := 0.05; GeometricBrownianMotion.sigma := 0.2 |}.

Definition heston_example : HestonProcess.t :=
  {| HestonProcess.mu := 0.03; HestonProcess.kappa := 2; HestonProcess.theta := 0.04;
     HestonProcess.eta := 0.3; HestonProcess.rho := -0.7; HestonProcess.milstein := true |}.

(** The GBM scenario without volatility, and the Heston scenario with a
    correlation outside [-1, 1]. *)
Definition gbm_flat : GeometricBrownianMotion.t :=
  {| GeometricBrownianMotion.mu := 0.05; GeometricBrownianMotion.sigma := 0 |}.

Definition heston_overcorrelated : HestonProcess.t :=
  {| HestonProcess.mu := 0.03; HestonProcess.kappa := 2; HestonProcess.theta := 0.04;
     HestonProcess.eta := 0.3; HestonProcess.rho := 2; HestonProcess.milstein := true |}.



(** Unfolds a call on concrete arguments down to its arithmetic. *)
Ltac run_call :=
  cbv [GeometricBrownianMotion.simulate GeometricBrownianMotion.brownian
       GeometricBrownianMotion.prices HestonProcess.simulate HestonProcess.noise
       HestonProcess.paths HestonProcess.initial HestonProcess.loop HestonProcess.step
       seed_guard truthy random_seed random_randn random_row lift truediv
       mbind mret sim_bind sim_ret result_bind result_ret
       np.setitem_scalar np.getitem np.setitem np.zeros np.ones np.linspace
       np.cumsum np.cumsum_from np.where_pos_else_neg
       gauss seed_state counter];
  simpl.

(** An entry that is a number above zero. *)
Definition positive (e : np.num) : Prop := ∃ x : R, e = np.real x ∧ 0 < x.

(** The state of the generator after [k] draws. *)
Definition advance `{G : Generator} (k : nat) (g : rng) : rng :=
  Nat.iter k (λ g, (gauss g).2) g.

(** The state the seed guard leaves: the seeded state for a seed that is
    true, the state before otherwise. *)
Definition guarded_state `{G : Generator} (seed : option Z) (g : rng) : rng :=
  match seed with
  | Some s => if truthy seed then seed_state s else g
  | None => g
  end.

(** The variance row the loop of [HestonProcess] reads at iteration [k]:
    [v0] itself at iteration 0, then the folded update of the row before. *)
Fixpoint variance_row (self : HestonProcess.t) (dt v0 : R) (n : nat) (z1 : np.arr2)
    (k : nat) : np.arr1 :=
  match k with
  | O => replicate n (np.real v0)
  | S i => absn <$> zip_with (HestonProcess.variance_update self dt)
                      (variance_row self dt v0 n z1 i) (default [] (z1 !! i))
  end.

(** Row [k] of the log-price grid [x] of [HestonProcess]. *)
Fixpoint logprice_row (self : HestonProcess.t) (dt v0 : R) (n : nat) (z1 z2 : np.arr2)
    (k : nat) : np.arr1 :=
  match k with
  | O => replicate n (np.real 0)
  | S i => zip_with (λ xv z, HestonProcess.logprice_update self dt xv.1 xv.2 z)
             (zip (logprice_row self dt v0 n z1 z2 i)
                  (absn <$> variance_row self dt v0 n z1 i))
             (default [] (z2 !! i))
  end.

(** What holds of the grids after [i] iterations of the loop. *)
Definition rows_inv (self : HestonProcess.t) (s0 v0 dt : R) (m n : nat)
    (z1 z2 : np.arr2) (i : nat) (st : HestonProcess.grids) : Prop :=
  grids_shape st m n
  ∧ HestonProcess.s st !! 0%nat = Some (replicate n (np.real s0))
  ∧ HestonProcess.v st !! 0%nat
    = Some (if decide (i = 0)%nat then variance_row self dt v0 n z1 0
            else absn <$> variance_row self dt v0 n z1 0)
  ∧ (∀ k, (1 ≤ k ≤ i)%nat →
          HestonProcess.v st !! k = Some (variance_row self dt v0 n z1 k))
  ∧ (∀ k, (k ≤ i)%nat →
          HestonProcess.x st !! k = Some (logprice_row self dt v0 n z1 z2 k))
  ∧ ((1 ≤ i)%nat → ∀ k, (1 ≤ k ≤ m)%nat →
       HestonProcess.s st !! k
       = zip_with (λ a e, a * np.exp e)%np (replicate n (np.real s0))
         <$> HestonProcess.x st !! k).

(** Reduces an equation between two results to equations between their
    entries. *)
Ltac peel :=
  unfold np.real;
  repeat match goal with
         | |- (_, _) = (_, _) => f_equal
         | |- Ok _ = Ok _ => f_equal
         | |- HestonProcess.PricesAndVol _ _ = HestonProcess.PricesAndVol _ _ => f_equal
         | |- _ :: _ = _ :: _ => f_equal
         | |- Some _ = Some _ => f_equal
         end;
  try reflexivity.

(** ** Arithmetic on entries *)

Lemma neg_mul_one (c : np.num) : (- ($1 * c) = $(-1) * c)%np.
Proof. destruct c as [x|]; cbn; [f_equal; lra | reflexivity]. Qed.

Lemma reflect_abs (e : np.num) :
  (if np.gt e (np.real 0) then e else np.neg e) = absn e.
Proof.
  destruct e as [x|]; cbn; [|reflexivity].
  case_bool_decide; f_equal.
  - symmetry. apply Rabs_right. lra.
  - symmetry. apply Rabs_left1. lra.
Qed.

Lemma where_pos_else_neg_abs (v : np.arr2) :
  np.where_pos_else_neg v = np.elementwise absn v.
Proof.
  unfold np.where_pos_else_neg.
  apply list_fmap_ext. intros _ r _. apply list_fmap_ext. intros _ e _.
  apply reflect_abs.
Qed.


(** ** Shapes *)

Lemma shape_fmap (f : np.num → np.num) (a : np.arr2) (rows cols : nat) :
  shape a rows cols → shape (np.elementwise f a) rows cols.
Proof.
  intros [Hl Hr]. split; [by rewrite length_fmap|].
  apply Forall_fmap. revert Hr. apply Forall_impl.
  intros r Hlen. cbn. by rewrite length_fmap.
Qed.

Lemma shape_insert (a : np.arr2) (rows cols i : nat) (r : np.arr1) :
  shape a rows cols → length r = cols → shape (<[i := r]> a) rows cols.
Proof.
  intros [Hl Hr] Hlen. split; [by rewrite length_insert|].
  by apply Forall_insert.
Qed.

Lemma shape_lookup (a : np.arr2) (rows cols i : nat) :
  shape a rows cols → (i < rows)%nat → ∃ r, a !! i = Some r ∧ length r = cols.
Proof.
  intros [Hl Hr] Hi.
  destruct (lookup_lt_is_Some_2 a i) as [r Hri]; [lia|].
  exists r. split; [exact Hri|].
  exact (Forall_lookup_1 _ a i r Hr Hri).
Qed.

Lemma shape_cumsum_from (acc : np.arr1) (a : np.arr2) (cols : nat) :
  length acc = cols → Forall (λ r, length r = cols) a →
  length (np.cumsum_from acc a) = length a
  ∧ Forall (λ r, length r = cols) (np.cumsum_from acc a).
Proof.
  intros Hacc Ha. revert acc Hacc.
  induction Ha as [|r a Hr Ha IH]; intros acc Hacc; cbn; [by split|].
  assert (Hz : length (zip_with np.add acc r) = cols).
  { rewrite length_zip_with. lia. }
  destruct (IH _ Hz) as [IH1 IH2].
  split; [by rewrite IH1 | by constructor].
Qed.

Lemma shape_cumsum (a : np.arr2) (rows cols : nat) :
  shape a rows cols → shape (np.cumsum a) rows cols.
Proof.
  intros [Hl Hr]. destruct a as [|r a]; [by split|].
  apply Forall_cons_1 in Hr as [Hr Ha].
  destruct (shape_cumsum_from r a cols Hr Ha) as [H1 H2].
  split; cbn in *; [by rewrite H1 | by constructor].
Qed.

Lemma shape_zip_with (f : np.num → np.num → np.num) (a b : np.arr2) (rows cols : nat) :
  shape a rows cols → shape b rows cols →
  shape (zip_with (zip_with f) a b) rows cols.
Proof.
  intros [Hla Hra] [Hlb Hrb]. split; [rewrite length_zip_with; lia|].
  clear Hla Hlb. revert b Hrb.
  induction Hra as [|r a Hr Hra IH]; intros b Hrb; [constructor|].
  destruct Hrb as [|r' b Hr' Hrb]; cbn; constructor; [|by apply IH].
  rewrite length_zip_with. lia.
Qed.

Lemma zip_with_fmap_replicate (f : np.num → np.num → np.num) (g : np.num → np.num)
    (n : nat) (a b : np.num) :
  zip_with f (g <$> replicate n a) (replicate n b) = replicate n (f (g a) b).
Proof. induction n as [|n IH]; cbn; [reflexivity | by rewrite IH]. Qed.

Lemma fmap_const_length (c : np.num) (r : np.arr1) :
  (λ _, c) <$> r = replicate (length r) c.
Proof. induction r as [|e r IH]; cbn; [reflexivity | by rewrite IH]. Qed.

(** ** Running the generator *)

Section Generator_facts.
Context `{G : Generator}.

Lemma bind_ok {A B} (c : sim A) (f : A → sim B) (g g' : rng) (a : A) :
  c g = (Ok a, g') → (c ≫= f) g = f a g'.
Proof. intros Hc. unfold mbind, sim_bind. by rewrite Hc. Qed.

Lemma bind_raise {A B} (c : sim A) (f : A → sim B) (g g' : rng) (e : exn) :
  c g = (Raise e, g') → (c ≫= f) g = (Raise e, g').
Proof. intros Hc. unfold mbind, sim_bind. by rewrite Hc. Qed.

Lemma bind_assoc {A B C} (c : sim A) (f : A → sim B) (k : B → sim C) (g : rng) :
  ((c ≫= f) ≫= k) g = (c ≫= λ a, f a ≫= k) g.
Proof.
  unfold mbind, sim_bind. destruct (c g) as [[a|e] g']; reflexivity.
Qed.

Lemma bind_lift_ok {A B} (a : A) (f : A → sim B) (g : rng) :
  (lift (Ok a) ≫= f) g = f a g.
Proof. reflexivity. Qed.

Lemma random_row_ok (cols : nat) (g : rng) :
  ∃ r g', random_row cols g = (Ok r, g') ∧ length r = cols ∧ Forall is_real r.
Proof.
  revert g. induction cols as [|c IH]; intros g; cbn.
  - exists [], g. by repeat split.
  - destruct (gauss g) as [z g1]. destruct (IH g1) as (r & g' & Hr & Hlen & Hreal).
    exists (np.real z :: r), g'. rewrite (bind_ok _ _ _ _ _ Hr).
    repeat split; [by cbn; rewrite Hlen|].
    constructor; [by exists z | exact Hreal].
Qed.

Lemma random_randn_ok (rows cols : nat) (g : rng) :
  ∃ z g', random_randn rows cols g = (Ok z, g')
          ∧ shape z rows cols ∧ Forall (Forall is_real) z.
Proof.
  revert g. induction rows as [|r IH]; intros g; cbn.
  - exists [], g. by repeat split.
  - destruct (random_row_ok cols g) as (row & g1 & Hrow & Hlen & Hreal).
    destruct (IH g1) as (z & g' & Hz & [Hl Hw] & Hzreal).
    exists (row :: z), g'. rewrite (bind_ok _ _ _ _ _ Hrow), (bind_ok _ _ _ _ _ Hz).
    repeat split; [by cbn; rewrite Hl | by constructor | by constructor].
Qed.

Lemma seed_guard_ok (seed : option Z) (g : rng) :
  seed_ok seed → ∃ g', seed_guard seed g = (Ok (), g').
Proof.
  destruct seed as [s|]; cbn; [|by eexists].
  intros Hs. destruct (s =? 0)%Z; cbn; [by eexists|].
  unfold random_seed. rewrite bool_decide_eq_true_2 by exact Hs. by eexists.
Qed.

Lemma seed_guard_truthy_ok (s : Z) (g : rng) :
  s ≠ 0%Z → (0 ≤ s ≤ 2 ^ 32 - 1)%Z → seed_guard (Some s) g = (Ok (), seed_state s).
Proof.
  intros Hs Hr. cbn. destruct (Z.eqb_spec s 0) as [|_]; [done|]. cbn.
  unfold random_seed. by rewrite bool_decide_eq_true_2.
Qed.

(** The Brownian path of a call, from the state [g0] the seed guard leaves:
    row 0 is zero and the other rows are the running sums, with the sign. *)
Lemma brownian_run (T : R) (n m : nat) (g0 : rng) :
  (1 ≤ m)%nat →
  ∃ (C : np.arr2) (g' : rng),
    shape C m n ∧
    ∀ antithetic seed g,
      seed_guard seed g = (Ok (), g0) →
      GeometricBrownianMotion.brownian T n m antithetic seed g
      = (Ok (replicate n (np.real 0)
             :: fmap (M := list)
                  (fmap (M := list)
                     (np.mul (np.real (if antithetic then -1 else 1)))) C), g').
Proof.
  intros Hm.
  destruct (random_randn_ok (m + 1) n g0) as (z & g' & Hz & Hshape & _).
  pose proof (shape_cumsum _ _ _
    (shape_fmap (λ e, np.mul (np.sqrt (np.real (T / INR m))) e) _ _ _ Hshape))
    as [HCl HCw].
  destruct z as [|r0 z]; [destruct Hshape as [Hl _]; cbn in Hl; lia|].
  cbn [fmap list_fmap np.cumsum] in HCl, HCw.
  set (r0' := _ <$> r0) in *. set (C := np.cumsum_from _ _) in *.
  apply Forall_cons_1 in HCw as [Hr0 HCw].
  exists C, g'. split; [split; [cbn in HCl; lia | exact HCw]|].
  intros antithetic seed g Hseed.
  unfold GeometricBrownianMotion.brownian.
  rewrite (bind_ok _ _ _ _ _ Hseed).
  unfold truediv. destruct (decide (m = 0)%nat) as [->|_]; [lia|].
  rewrite bind_lift_ok, (bind_ok _ _ _ _ _ Hz).
  cbn [fmap list_fmap np.cumsum]. fold r0' C.
  unfold lift, np.setitem_scalar, np.getitem, np.setitem. cbn.
  destruct (decide _) as [_|Hn]; [|exfalso; lia].
  rewrite fmap_const_length, length_fmap, Hr0. reflexivity.
Qed.

End Generator_facts.

(** ** Geometric Brownian motion *)

Lemma linspace_length (start stop : R) (num : nat) :
  length (np.linspace start stop num) = num.
Proof.
  unfold np.linspace. destruct (decide (1 < num)%nat).
  - by rewrite length_insert, length_fmap, length_seq.
  - by rewrite length_fmap, length_seq.
Qed.

Lemma linspace_first (stop : R) (m : nat) :
  (1 ≤ m)%nat → np.linspace 0 stop (m + 1) !! 0%nat = Some (np.real 0).
Proof.
  intros Hm. unfold np.linspace.
  destruct (decide (1 < m + 1)%nat) as [_|Hn]; [|lia].
  replace (m + 1)%nat with (S m) by lia.
  rewrite list_lookup_insert_ne by lia. cbn. do 2 f_equal. lra.
Qed.

Lemma prices_shape (self : GeometricBrownianMotion.t) (s0 T : R) (n m : nat)
    (W : np.arr2) :
  shape W (m + 1) n →
  shape (GeometricBrownianMotion.prices self s0 T n m W) (m + 1) n.
Proof.
  intros HW. unfold GeometricBrownianMotion.prices.
  apply shape_zip_with; [|exact HW].
  split; [by rewrite length_fmap, linspace_length|].
  apply Forall_fmap, Forall_forall. intros t _. unfold compose, np.ones.
  by rewrite length_fmap, length_replicate.
Qed.

Lemma prices_row0 (self : GeometricBrownianMotion.t) (s0 T : R) (n m : nat)
    (W : np.arr2) :
  (1 ≤ m)%nat →
  GeometricBrownianMotion.prices self s0 T n m (replicate n (np.real 0) :: W) !! 0%nat
  = Some (replicate n (np.real s0)).
Proof.
  intros Hm. unfold GeometricBrownianMotion.prices.
  pose proof (linspace_first T m Hm) as Hfirst.
  destruct (np.linspace 0 T (m + 1)) as [|t ts]; [discriminate|].
  cbn in Hfirst. injection Hfirst as ->.
  cbn [fmap list_fmap zip_with lookup list_lookup]. f_equal.
  unfold np.ones. rewrite zip_with_fmap_replicate. f_equal.
  cbn. f_equal.
  replace ((_ - _) * (1 * 0) + _ * 0) with 0 by lra.
  rewrite exp_0. lra.
Qed.

(** How one reads the Brownian path back from a price: for positive [s0]
    and non-zero [sigma], [(log(s/s0) - (mu - 0.5*sigma^2)*t)/sigma] is [w]
    when [s = s0 * exp((mu - 0.5*sigma^2)*t + sigma*w)]. *)
Lemma brownian_recoverable (mu sigma s0 t w : R) :
  0 < s0 → sigma ≠ 0 →
  (ln (s0 * exp ((mu - 0.5 * sigma ^ 2) * t + sigma * w) / s0)
   - (mu - 0.5 * sigma ^ 2) * t) / sigma = w.
Proof.
  intros Hs0 Hsigma.
  replace (s0 * exp ((mu - 0.5 * sigma ^ 2) * t + sigma * w) / s0)
    with (exp ((mu - 0.5 * sigma ^ 2) * t + sigma * w)) by (field; lra).
  rewrite ln_exp. field. exact Hsigma.
Qed.

Section GBM_properties.
Context `{G : Generator}.

(** A call with an accepted seed and at least one step returns the closed
    form of its Brownian path, whose row 0 is zero. *)
Lemma gbm_simulate_run (self : GeometricBrownianMotion.t) (s0 T : R) (n m : nat)
    (v0 : option R) (antithetic : bool) (seed : option Z) (g : rng) :
  seed_ok seed → (1 ≤ m)%nat →
  ∃ (W : np.arr2) (g' : rng),
    shape W m n ∧
    GeometricBrownianMotion.simulate self s0 T n m v0 antithetic seed g
    = (Ok (GeometricBrownianMotion.prices self s0 T n m
             (replicate n (np.real 0) :: W)), g').
Proof.
  intros Hseed Hm.
  destruct (seed_guard_ok seed g Hseed) as [g0 Hg0].
  destruct (brownian_run T n m g0 Hm) as (C & g' & HC & Hrun).
  eexists _, g'. split; [apply shape_fmap; exact HC|].
  unfold GeometricBrownianMotion.simulate.
  rewrite (bind_ok _ _ _ _ _ (Hrun antithetic seed g Hg0)). reflexivity.
Qed.

(** C3.  A call of [GeometricBrownianMotion.simulate] with at least one step
    (and a seed NumPy accepts) returns a matrix whose row 0 is [s0] in each
    of its [n] columns, whatever [mu], [sigma], [s0], [T], the antithetic
    flag and the seed. *)
Theorem gbm_row0_is_s0 (self : GeometricBrownianMotion.t) (s0 T : R) (n m : nat)
    (v0 : option R) (antithetic : bool) (seed : option Z) (g : rng) :
  seed_ok seed → (1 ≤ m)%nat →
  ∃ (s : np.arr2) (g' : rng),
    GeometricBrownianMotion.simulate self s0 T n m v0 antithetic seed g = (Ok s, g')
    ∧ s !! 0%nat = Some (replicate n (np.real s0)).
Proof.
  intros Hseed Hm.
  destruct (gbm_simulate_run self s0 T n m v0 antithetic seed g Hseed Hm)
    as (W & g' & _ & Hrun).
  eexists _, g'. split; [exact Hrun|].
  apply prices_row0, Hm.
Qed.

(** X18.  Two calls of [GeometricBrownianMotion.simulate] with the same
    non-zero seed, one plain and one antithetic, whatever the state of the
    generator before each: the Brownian path of the antithetic call is the
    entrywise negation of that of the plain call, and each call returns the
    closed form of its path. *)
Theorem antithetic_path_is_negation (self : GeometricBrownianMotion.t) (s0 T : R)
    (n m : nat) (v0 : option R) (seed : Z) (g1 g2 : rng) :
  seed ≠ 0%Z → (0 ≤ seed ≤ 2 ^ 32 - 1)%Z → (1 ≤ m)%nat →
  ∃ (W : np.arr2) (g' : rng),
    GeometricBrownianMotion.brownian T n m false (Some seed) g1 = (Ok W, g')
    ∧ GeometricBrownianMotion.brownian T n m true (Some seed) g2
      = (Ok (np.elementwise np.neg W), g')
    ∧ GeometricBrownianMotion.simulate self s0 T n m v0 false (Some seed) g1
      = (Ok (GeometricBrownianMotion.prices self s0 T n m W), g')
    ∧ GeometricBrownianMotion.simulate self s0 T n m v0 true (Some seed) g2
      = (Ok (GeometricBrownianMotion.prices self s0 T n m
               (np.elementwise np.neg W)), g').
Proof.
  intros Hnz Hrange Hm.
  destruct (brownian_run T n m (seed_state seed) Hm) as (C & g' & HC & Hrun).
  pose proof (Hrun false (Some seed) g1 (seed_guard_truthy_ok seed g1 Hnz Hrange)) as H1.
  pose proof (Hrun true (Some seed) g2 (seed_guard_truthy_ok seed g2 Hnz Hrange)) as H2.
  assert (Hneg :
    replicate n (np.real 0) :: np.elementwise (np.mul (np.real (-1))) C
    = np.elementwise np.neg
        (replicate n (np.real 0) :: np.elementwise (np.mul (np.real 1)) C)).
  { cbn [fmap list_fmap]. f_equal.
    - rewrite fmap_replicate. cbn. by rewrite Ropp_0.
    - rewrite <- list_fmap_compose. apply list_fmap_ext. intros _ r _. cbn.
      rewrite <- list_fmap_compose. apply list_fmap_ext. intros _ c _. cbn.
      symmetry. apply neg_mul_one. }
  cbv beta iota in H1, H2. rewrite Hneg in H2.
  eexists _, g'. repeat split; [exact H1 | exact H2 | |].
  - unfold GeometricBrownianMotion.simulate. by rewrite (bind_ok _ _ _ _ _ H1).
  - unfold GeometricBrownianMotion.simulate. by rewrite (bind_ok _ _ _ _ _ H2).
Qed.

End GBM_properties.

(** ** The Heston loop *)

Lemma getitem_ok {A} (a : list A) (i : nat) (r : A) :
  a !! i = Some r → np.getitem a i = Ok r.
Proof. intros H. unfold np.getitem. by rewrite H. Qed.

Lemma setitem_ok {A} (a : list A) (i : nat) (r : A) :
  (i < length a)%nat → np.setitem a i r = Ok (<[i := r]> a).
Proof. intros H. unfold np.setitem. by rewrite decide_True. Qed.

Lemma setitem_scalar_zeros (rows cols : nat) (c : np.num) :
  np.setitem_scalar (np.zeros (rows + 1) cols) 0 c
  = Ok (<[0%nat := replicate cols c]> (np.zeros (rows + 1) cols)).
Proof.
  unfold np.setitem_scalar, np.zeros.
  rewrite (getitem_ok _ _ (replicate cols (np.real 0)))
    by (apply lookup_replicate_2; lia).
  cbn [mbind result_bind].
  rewrite setitem_ok by (rewrite length_replicate; lia).
  by rewrite fmap_const_length, length_replicate.
Qed.

Lemma initial_run (s0 v0 : R) (n m : nat) :
  HestonProcess.initial s0 v0 n m = Ok (initial_grids s0 v0 n m).
Proof.
  unfold HestonProcess.initial.
  rewrite !setitem_scalar_zeros. reflexivity.
Qed.

Lemma initial_grids_shape (s0 v0 : R) (n m : nat) :
  grids_shape (initial_grids s0 v0 n m) m n.
Proof.
  repeat split; cbn;
    rewrite ?length_insert; try apply length_replicate;
    try apply Forall_insert; try apply Forall_replicate;
    apply length_replicate.
Qed.

(** One iteration, on grids and noise of the right shapes: it raises
    nothing, writes row [i + 1] of [v] from row [i], folds the whole of [v],
    and leaves row 0 of [s] alone. *)
Lemma step_run (self : HestonProcess.t) (dt : R) (z1 z2 : np.arr2)
    (st : HestonProcess.grids) (m n i : nat) :
  grids_shape st m n → shape z1 m n → shape z2 m n → (i < m)%nat →
  ∃ (v_i z1_i : np.arr1) (st' : HestonProcess.grids),
    HestonProcess.v st !! i = Some v_i ∧ length v_i = n
    ∧ z1 !! i = Some z1_i ∧ length z1_i = n
    ∧ HestonProcess.step self dt z1 z2 st i = Ok st'
    ∧ HestonProcess.v st'
      = np.elementwise absn
          (<[(i + 1)%nat := zip_with (HestonProcess.variance_update self dt) v_i z1_i]>
             (HestonProcess.v st))
    ∧ HestonProcess.s st' !! 0%nat = HestonProcess.s st !! 0%nat
    ∧ grids_shape st' m n.
Proof.
  intros (Hs & Hx & Hv) Hz1 Hz2 Hi.
  destruct (shape_lookup _ _ _ i Hv) as (v_i & Hv_i & Hlv); [lia|].
  destruct (shape_lookup _ _ _ i Hz1) as (z1_i & Hz1_i & Hlz1); [lia|].
  destruct (shape_lookup _ _ _ i Hz2) as (z2_i & Hz2_i & Hlz2); [lia|].
  destruct (shape_lookup _ _ _ i Hx) as (x_i & Hx_i & Hlx); [lia|].
  destruct (shape_lookup _ _ _ 0 Hs) as (s_0 & Hs_0 & Hls); [lia|].
  set (row := zip_with (HestonProcess.variance_update self dt) v_i z1_i).
  assert (Hrow : length row = n) by (unfold row; rewrite length_zip_with; lia).
  set (v' := np.elementwise absn (<[(i + 1)%nat := row]> (HestonProcess.v st))).
  assert (Hv' : shape v' (m + 1) n) by (apply shape_fmap, shape_insert; done).
  destruct (shape_lookup _ _ _ i Hv') as (v'_i & Hv'_i & Hlv'); [lia|].
  set (xrow := zip_with (λ xv z, HestonProcess.logprice_update self dt xv.1 xv.2 z)
                 (zip x_i v'_i) z2_i).
  assert (Hxrow : length xrow = n).
  { unfold xrow. rewrite length_zip_with, length_zip_with. lia. }
  set (x' := <[(i + 1)%nat := xrow]> (HestonProcess.x st)).
  assert (Hx' : shape x' (m + 1) n) by (apply shape_insert; done).
  set (s' := take 1 (HestonProcess.s st)
             ++ ((λ r, zip_with (λ a e, a * np.exp e)%np s_0 r) <$> drop 1 x')).
  exists v_i, z1_i,
    {| HestonProcess.s := s'; HestonProcess.x := x'; HestonProcess.v := v' |}.
  split; [exact Hv_i|]. split; [exact Hlv|]. split; [exact Hz1_i|].
  split; [exact Hlz1|]. split; [|split; [|split]].
  - unfold HestonProcess.step.
    rewrite (getitem_ok _ _ _ Hv_i), (getitem_ok _ _ _ Hz1_i). cbn [mbind result_bind].
    rewrite setitem_ok by (destruct Hv as [-> _]; lia). cbn [mbind result_bind].
    rewrite where_pos_else_neg_abs. fold row v'.
    rewrite (getitem_ok _ _ _ Hx_i), (getitem_ok _ _ _ Hv'_i), (getitem_ok _ _ _ Hz2_i).
    cbn [mbind result_bind].
    rewrite setitem_ok by (destruct Hx as [-> _]; lia). cbn [mbind result_bind].
    fold xrow x'. rewrite (getitem_ok _ _ _ Hs_0). reflexivity.
  - reflexivity.
  - cbn. unfold s'. destruct Hs as [Hl _].
    rewrite lookup_app_l by (rewrite length_take; lia).
    by rewrite lookup_take_lt by lia.
  - repeat split; cbn; unfold s'.
    + rewrite length_app, length_take, length_fmap, length_drop.
      destruct Hs as [-> _], Hx' as [-> _]. lia.
    + apply Forall_app. split; [apply Forall_take; apply Hs|].
      apply Forall_fmap. destruct Hx' as [_ Hx'].
      apply (Forall_drop _ 1) in Hx'. revert Hx'. apply Forall_impl.
      intros r Hr. cbn. rewrite length_zip_with. lia.
    + apply Hx'.
    + apply Hx'.
    + apply Hv'.
    + apply Hv'.
Qed.

Lemma step_row0 (self : HestonProcess.t) (dt : R) (z1 z2 : np.arr2)
    (st : HestonProcess.grids) (m n i : nat) :
  grids_shape st m n → shape z1 m n → shape z2 m n → (i < m)%nat →
  ∃ st', HestonProcess.step self dt z1 z2 st i = Ok st'
         ∧ HestonProcess.v st' !! 0%nat = fmap absn <$> HestonProcess.v st !! 0%nat
         ∧ HestonProcess.s st' !! 0%nat = HestonProcess.s st !! 0%nat
         ∧ grids_shape st' m n.
Proof.
  intros Hst Hz1 Hz2 Hi.
  destruct (step_run self dt z1 z2 st m n i Hst Hz1 Hz2 Hi)
    as (v_i & z1_i & st' & _ & _ & _ & _ & Hstep & Hv & Hs & Hshape).
  exists st'. split; [exact Hstep|]. split; [|split; [exact Hs | exact Hshape]].
  rewrite Hv, list_lookup_fmap, list_lookup_insert_ne by lia. reflexivity.
Qed.

Lemma loop_snoc (body : HestonProcess.grids → nat → result HestonProcess.grids)
    (st : HestonProcess.grids) (range : list nat) (i : nat) :
  HestonProcess.loop body st (range ++ [i])
  = HestonProcess.loop body st range ≫= λ st', body st' i.
Proof.
  revert st. induction range as [|j range IH]; intros st; cbn.
  - by destruct (body st i).
  - destruct (body st j) as [st1|e]; cbn; [apply IH | reflexivity].
Qed.

(** A property of the grids that every iteration keeps holds when the loop
    ends, and the loop raises nothing. *)
Lemma loop_invariant (P : HestonProcess.grids → Prop)
    (body : HestonProcess.grids → nat → result HestonProcess.grids)
    (range : list nat) (st : HestonProcess.grids) :
  P st →
  (∀ st i, i ∈ range → P st → ∃ st', body st i = Ok st' ∧ P st') →
  ∃ st', HestonProcess.loop body st range = Ok st' ∧ P st'.
Proof.
  revert st. induction range as [|j range IH]; intros st HP Hbody; cbn.
  - by exists st.
  - destruct (Hbody st j) as (st1 & Hst1 & HP1); [by left | done |].
    rewrite Hst1. cbn. apply IH; [done|].
    intros st2 i Hi. apply Hbody. by right.
Qed.

Lemma loop_inv_initial (s0 v0 : R) (m n : nat) :
  loop_inv s0 v0 m n (initial_grids s0 v0 n m).
Proof.
  split; [apply initial_grids_shape|]. cbn.
  replace (m + 1)%nat with (S m) by lia. cbn. by split; [|left].
Qed.

Lemma loop_inv_step (self : HestonProcess.t) (s0 v0 dt : R) (z1 z2 : np.arr2)
    (st : HestonProcess.grids) (m n i : nat) :
  shape z1 m n → shape z2 m n → (i < m)%nat → loop_inv s0 v0 m n st →
  ∃ st', HestonProcess.step self dt z1 z2 st i = Ok st'
         ∧ loop_inv s0 v0 m n st'
         ∧ HestonProcess.v st' !! 0%nat = Some (replicate n (np.real (Rabs v0))).
Proof.
  intros Hz1 Hz2 Hi (Hshape & Hs & Hv).
  destruct (step_row0 self dt z1 z2 st m n i Hshape Hz1 Hz2 Hi)
    as (st' & Hstep & Hv' & Hs' & Hshape').
  assert (Hrow : HestonProcess.v st' !! 0%nat = Some (replicate n (np.real (Rabs v0)))).
  { rewrite Hv'. destruct Hv as [-> | ->]; cbn; rewrite fmap_replicate; cbn;
      [reflexivity | by rewrite Rabs_Rabsolu]. }
  exists st'. split; [exact Hstep|]. split; [|exact Hrow].
  split; [exact Hshape'|]. split; [by rewrite Hs' | by right].
Qed.

(** The loop up to (and without) iteration [k]. *)
Lemma loop_prefix (self : HestonProcess.t) (s0 v0 dt : R) (z1 z2 : np.arr2)
    (m n k : nat) :
  shape z1 m n → shape z2 m n → (k ≤ m)%nat →
  ∃ st, HestonProcess.loop (HestonProcess.step self dt z1 z2)
          (initial_grids s0 v0 n m) (seq 0 k) = Ok st
        ∧ loop_inv s0 v0 m n st.
Proof.
  intros Hz1 Hz2 Hk.
  apply loop_invariant; [apply loop_inv_initial|].
  intros st i Hi Hst. apply elem_of_seq in Hi.
  destruct (loop_inv_step self s0 v0 dt z1 z2 st m n i) as (st' & ? & ? & _);
    [done | done | lia | done |].
  by exists st'.
Qed.

(** The grids a call computes, for at least one step: the last iteration
    folds the whole variance grid. *)
Lemma paths_run (self : HestonProcess.t) (s0 v0 dt : R) (z1 z2 : np.arr2)
    (m n : nat) :
  shape z1 m n → shape z2 m n → (1 ≤ m)%nat →
  ∃ (st : HestonProcess.grids) (u : np.arr2),
    HestonProcess.paths self s0 v0 dt n m z1 z2 = Ok st
    ∧ loop_inv s0 v0 m n st
    ∧ HestonProcess.v st = np.elementwise absn u
    ∧ HestonProcess.v st !! 0%nat = Some (replicate n (np.real (Rabs v0))).
Proof.
  intros Hz1 Hz2 Hm.
  destruct (loop_prefix self s0 v0 dt z1 z2 m n (m - 1) Hz1 Hz2) as (st1 & Hloop & Hinv);
    [lia|].
  destruct (step_run self dt z1 z2 st1 m n (m - 1)) as
    (v_i & z1_i & st & _ & _ & _ & _ & Hstep & Hv & _); [apply Hinv | done | done | lia |].
  destruct (loop_inv_step self s0 v0 dt z1 z2 st1 m n (m - 1)) as (st' & Hstep' & Hinv' & Hrow);
    [done | done | lia | done |].
  assert (st' = st) as -> by congruence.
  exists st. eexists. split; [|split; [exact Hinv'|split; [exact Hv|exact Hrow]]].
  unfold HestonProcess.paths. rewrite initial_run. cbn [mbind result_bind].
  assert (Hseq : seq 0 m = seq 0 (m - 1) ++ [(m - 1)%nat]).
  { replace m with (S (m - 1)) at 1 by lia. by rewrite seq_S. }
  rewrite Hseq, loop_snoc, Hloop. cbn [mbind result_bind].
  exact Hstep.
Qed.

(** ** Entries that stay numbers *)

Lemma nonneg_is_real (e : np.num) : nonneg e → is_real e.
Proof. intros (x & -> & _). by exists x. Qed.

Lemma absn_real_nonneg (e : np.num) : is_real e → nonneg (absn e).
Proof. intros (x & ->). exists (Rabs x). split; [reflexivity | apply Rabs_pos]. Qed.

Lemma Forall_zip_with_intro {A B C} (P : A → Prop) (Q : B → Prop) (R : C → Prop)
    (f : A → B → C) (l : list A) (k : list B) :
  (∀ a b, P a → Q b → R (f a b)) →
  Forall P l → Forall Q k → Forall R (zip_with f l k).
Proof.
  intros Hf Hl. revert k.
  induction Hl as [|a l Ha Hl IH]; intros k Hk; [constructor|].
  destruct Hk as [|b k Hb Hk]; cbn; constructor; [by apply Hf | by apply IH].
Qed.

Lemma variance_update_real (self : HestonProcess.t) (dt : R) (v z : np.num) :
  0 <= dt → nonneg v → is_real z →
  is_real (HestonProcess.variance_update self dt v z).
Proof.
  intros Hdt (x & -> & Hx) (y & ->).
  unfold HestonProcess.variance_update. cbn.
  rewrite bool_decide_eq_false_2 by nra.
  destruct (HestonProcess.milstein self); cbn; by eexists.
Qed.



(** ** Entries of a matrix *)

Lemma entry_elementwise (f : np.num → np.num) (a : np.arr2) (i k : nat) :
  entry (np.elementwise f a) i k = f <$> entry a i k.
Proof.
  unfold entry. rewrite list_lookup_fmap.
  destruct (a !! i) as [r|]; cbn; [|reflexivity]. by rewrite list_lookup_fmap.
Qed.

Lemma entry_zip_with (f : np.num → np.num → np.num) (a b : np.arr2) (i k : nat)
    (x y : np.num) :
  entry a i k = Some x → entry b i k = Some y →
  entry (zip_with (zip_with f) a b) i k = Some (f x y).
Proof.
  unfold entry. intros Ha Hb. rewrite lookup_zip_with.
  destruct (a !! i) as [r|]; [|discriminate].
  destruct (b !! i) as [r'|]; [|discriminate].
  cbn in *. rewrite lookup_zip_with, Ha. cbn. by rewrite Hb.
Qed.

(** ** Heston: the noise and the call *)

Lemma mul_real_is_real (c : R) (e : np.num) : is_real e → is_real (e * $c)%np.
Proof. intros (x & ->). by eexists. Qed.

Section Heston_properties.
Context `{G : Generator}.

(** The two grids of deviates are drawn one after the other, whatever the
    flag; the noise is computed from them. *)
Lemma noise_run (self : HestonProcess.t) (n m : nat) (g : rng) :
  ∃ (e1 e2 : np.arr2) (g1 g' : rng),
    random_randn m n g = (Ok e1, g1) ∧ random_randn m n g1 = (Ok e2, g')
    ∧ shape e1 m n ∧ shape e2 m n ∧ Forall (Forall is_real) e1
    ∧ ∀ antithetic,
        HestonProcess.noise self n m antithetic g
        = (Ok (np.elementwise (λ a, a * $(if antithetic then -1 else 1))%np e1,
               np.elementwise (λ a, a * $(if antithetic then -1 else 1))%np
                 (zip_with
                    (zip_with
                       (λ a b, $(HestonProcess.rho self) * a
                               + np.sqrt $(1 - HestonProcess.rho self ^ 2) * b)%np)
                    e1 e2)), g').
Proof.
  destruct (random_randn_ok m n g) as (e1 & g1 & He1 & Hs1 & Hr1).
  destruct (random_randn_ok m n g1) as (e2 & g' & He2 & Hs2 & _).
  exists e1, e2, g1, g'. do 5 (split; [done|]).
  intros antithetic. unfold HestonProcess.noise.
  rewrite (bind_ok _ _ _ _ _ He1), (bind_ok _ _ _ _ _ He2). reflexivity.
Qed.

(** A call with an accepted seed and at least one step: the noise has the
    shape of the increments, and the call returns the grids of [paths]. *)
Lemma heston_simulate_run (self : HestonProcess.t) (s0 v0 T : R) (n m : nat)
    (antithetic : bool) (seed : option Z) (g : rng) :
  seed_ok seed → (1 ≤ m)%nat →
  ∃ (z1 z2 : np.arr2) (st : HestonProcess.grids) (g' : rng),
    shape z1 m n ∧ shape z2 m n ∧ Forall (Forall is_real) z1
    ∧ HestonProcess.paths self s0 v0 (T / INR m) n m z1 z2 = Ok st
    ∧ ∀ return_vol,
        HestonProcess.simulate self s0 v0 T n m return_vol antithetic seed g
        = (Ok (if negb return_vol
               then HestonProcess.Prices (HestonProcess.s st)
               else HestonProcess.PricesAndVol (HestonProcess.s st) (HestonProcess.v st)),
           g').
Proof.
  intros Hseed Hm.
  destruct (seed_guard_ok seed g Hseed) as [g0 Hg0].
  destruct (noise_run self n m g0) as (e1 & e2 & g1 & g' & _ & _ & Hs1 & Hs2 & Hr1 & Hnoise).
  specialize (Hnoise antithetic).
  set (z1 := np.elementwise _ e1) in Hnoise.
  set (z2 := np.elementwise _ (zip_with _ e1 e2)) in Hnoise.
  assert (Hz1 : shape z1 m n) by apply shape_fmap, Hs1.
  assert (Hz2 : shape z2 m n) by (apply shape_fmap, shape_zip_with; done).
  assert (Hreal : Forall (Forall is_real) z1).
  { apply Forall_fmap. revert Hr1. apply Forall_impl. intros r Hr. cbn.
    apply Forall_fmap. revert Hr. apply Forall_impl. intros e. apply mul_real_is_real. }
  destruct (paths_run self s0 v0 (T / INR m) z1 z2 m n Hz1 Hz2 Hm) as (st & _ & Hpaths & _).
  exists z1, z2, st, g'. do 4 (split; [done|]).
  intros return_vol. unfold HestonProcess.simulate.
  rewrite (bind_ok _ _ _ _ _ Hg0).
  unfold truediv. destruct (decide (m = 0)%nat) as [->|_]; [lia|].
  rewrite bind_lift_ok, (bind_ok _ _ _ _ _ Hnoise). cbn [fst snd].
  rewrite Hpaths, bind_lift_ok. reflexivity.
Qed.


(** Row 0 of the two grids a call returns. *)
Lemma heston_rows0 (self : HestonProcess.t) (s0 v0 T : R) (n m : nat)
    (antithetic : bool) (seed : option Z) (g : rng) :
  seed_ok seed → (1 ≤ m)%nat →
  ∃ (s v : np.arr2) (g' : rng),
    (∀ return_vol,
       HestonProcess.simulate self s0 v0 T n m return_vol antithetic seed g
       = (Ok (if negb return_vol
              then HestonProcess.Prices s
              else HestonProcess.PricesAndVol s v), g'))
    ∧ shape s (m + 1) n ∧ shape v (m + 1) n
    ∧ s !! 0%nat = Some (replicate n (np.real s0))
    ∧ v !! 0%nat = Some (replicate n (np.real (Rabs v0))).
Proof.
  intros Hseed Hm.
  destruct (heston_simulate_run self s0 v0 T n m antithetic seed g Hseed Hm)
    as (z1 & z2 & st & g' & Hz1 & Hz2 & _ & Hpaths & Hrun).
  destruct (paths_run self s0 v0 (T / INR m) z1 z2 m n Hz1 Hz2 Hm)
    as (st' & u & Hpaths' & ((Hs & _ & Hv) & Hs0 & _) & _ & Hv0).
  assert (st' = st) as -> by congruence.
  exists (HestonProcess.s st), (HestonProcess.v st), g'.
  split; [exact Hrun|]. by do 3 (split; [assumption|]).
Qed.

(** C4, amended.  A call of [HestonProcess.simulate] with at least one step
    returns a price matrix whose row 0 is [s0] in every column and a
    variance matrix whose row 0 is the absolute value of [v0] in every
    column, hence [v0] itself when [v0] is at least zero. *)
Theorem heston_row0 (self : HestonProcess.t) (s0 v0 T : R) (n m : nat)
    (antithetic : bool) (seed : option Z) (g : rng) :
  seed_ok seed → (1 ≤ m)%nat →
  ∃ (s v : np.arr2) (g' : rng),
    (∀ return_vol,
       HestonProcess.simulate self s0 v0 T n m return_vol antithetic seed g
       = (Ok (if negb return_vol
              then HestonProcess.Prices s
              else HestonProcess.PricesAndVol s v), g'))
    ∧ s !! 0%nat = Some (replicate n (np.real s0))
    ∧ v !! 0%nat = Some (replicate n (np.real (Rabs v0)))
    ∧ (0 <= v0 → v !! 0%nat = Some (replicate n (np.real v0))).
Proof.
  intros Hseed Hm.
  destruct (heston_rows0 self s0 v0 T n m antithetic seed g Hseed Hm)
    as (s & v & g' & Hrun & _ & _ & Hs0 & Hv0).
  exists s, v, g'. do 3 (split; [done|]).
  intros Hpos. rewrite Hv0, Rabs_right; [reflexivity | lra].
Qed.

(** C2.  With at least one step (and a seed NumPy accepts), both simulators
    return matrices of [m + 1] rows and [n] columns: the price matrix of
    [GeometricBrownianMotion.simulate], and the price and the variance
    matrices of [HestonProcess.simulate]. *)
Theorem simulate_shapes (gbm : GeometricBrownianMotion.t) (heston : HestonProcess.t)
    (s0 v0 T : R) (n m : nat) (gbm_v0 : option R) (antithetic : bool)
    (seed : option Z) (g : rng) :
  seed_ok seed → (1 ≤ m)%nat → (1 ≤ n)%nat →
  (∃ (s : np.arr2) (g' : rng),
     GeometricBrownianMotion.simulate gbm s0 T n m gbm_v0 antithetic seed g = (Ok s, g')
     ∧ shape s (m + 1) n)
  ∧ (∃ (s v : np.arr2) (g' : rng),
       (∀ return_vol,
          HestonProcess.simulate heston s0 v0 T n m return_vol antithetic seed g
          = (Ok (if negb return_vol
                 then HestonProcess.Prices s
                 else HestonProcess.PricesAndVol s v), g'))
       ∧ shape s (m + 1) n ∧ shape v (m + 1) n).
Proof.
  intros Hseed Hm _. split.
  - destruct (gbm_simulate_run gbm s0 T n m gbm_v0 antithetic seed g Hseed Hm)
      as (W & g' & HW & Hrun).
    eexists _, g'. split; [exact Hrun|].
    apply prices_shape. destruct HW as [Hl Hw].
    split; [cbn; lia|]. constructor; [apply length_replicate | exact Hw].
  - destruct (heston_rows0 heston s0 v0 T n m antithetic seed g Hseed Hm)
      as (s & v & g' & Hrun & Hs & Hv & _).
    by exists s, v, g'.
Qed.

(** C7.  In [HestonProcess.simulate] the two grids of deviates [e1] and [e2]
    are drawn first, whatever the antithetic flag; [z1] is [e1] times the
    sign and [z2] is [rho*e1 + sqrt(1 - rho^2)*e2], the correlation of the
    unsigned deviates, times the same sign (-1 when antithetic, +1
    otherwise), entry by entry. *)
Theorem noise_correlated_then_signed (self : HestonProcess.t) (n m : nat) (g : rng) :
  ∃ (e1 e2 : np.arr2) (g1 g' : rng),
    random_randn m n g = (Ok e1, g1) ∧ random_randn m n g1 = (Ok e2, g')
    ∧ shape e1 m n ∧ shape e2 m n
    ∧ ∀ antithetic, ∃ z1 z2 : np.arr2,
        HestonProcess.noise self n m antithetic g = (Ok (z1, z2), g')
        ∧ shape z1 m n ∧ shape z2 m n
        ∧ ∀ (i k : nat) (a b : np.num),
            entry e1 i k = Some a → entry e2 i k = Some b →
            entry z1 i k = Some (a * $(if antithetic then -1 else 1))%np
            ∧ entry z2 i k
              = Some (($(HestonProcess.rho self) * a
                       + np.sqrt $(1 - HestonProcess.rho self ^ 2) * b)
                      * $(if antithetic then -1 else 1))%np.
Proof.
  destruct (noise_run self n m g) as (e1 & e2 & g1 & g' & He1 & He2 & Hs1 & Hs2 & _ & Hnoise).
  exists e1, e2, g1, g'. do 4 (split; [done|]).
  intros antithetic. eexists _, _. split; [apply Hnoise|].
  split; [by apply shape_fmap|]. split; [by apply shape_fmap, shape_zip_with|].
  intros i k a b Ha Hb. split.
  - by rewrite entry_elementwise, Ha.
  - by rewrite entry_elementwise, (entry_zip_with _ _ _ _ _ _ _ Ha Hb).
Qed.

(** C10.  A call of either simulator with [seed=0] is the call with no seed:
    the guard does not reseed, and the result and the generator's final
    state are those of the call with [seed=None] from the same state. *)
Theorem seed_zero_is_no_seed (gbm : GeometricBrownianMotion.t) (heston : HestonProcess.t)
    (s0 v0 T : R) (n m : nat) (gbm_v0 : option R) (return_vol antithetic : bool)
    (g : rng) :
  seed_guard (Some 0%Z) g = (Ok (), g)
  ∧ GeometricBrownianMotion.simulate gbm s0 T n m gbm_v0 antithetic (Some 0%Z) g
    = GeometricBrownianMotion.simulate gbm s0 T n m gbm_v0 antithetic None g
  ∧ HestonProcess.simulate heston s0 v0 T n m return_vol antithetic (Some 0%Z) g
    = HestonProcess.simulate heston s0 v0 T n m return_vol antithetic None g.
Proof. by repeat split. Qed.

Lemma seed_guard_refused (s : Z) (g : rng) :
  s ≠ 0%Z → ¬ (0 ≤ s ≤ 2 ^ 32 - 1)%Z → seed_guard (Some s) g = (Raise ValueError, g).
Proof.
  intros Hs Hr. cbn. destruct (Z.eqb_spec s 0) as [|_]; [done|]. cbn.
  unfold random_seed. by rewrite bool_decide_eq_false_2.
Qed.

(** Where the guard does reseed: two calls of either simulator with the
    same non-zero seed and the same parameters return the same result,
    whatever the state of the generator before each of them. *)
Lemma seeded_calls_agree (gbm : GeometricBrownianMotion.t) (heston : HestonProcess.t)
    (s0 v0 T : R) (n m : nat) (gbm_v0 : option R) (return_vol antithetic : bool)
    (seed : Z) (g1 g2 : rng) :
  seed ≠ 0%Z →
  (GeometricBrownianMotion.simulate gbm s0 T n m gbm_v0 antithetic (Some seed) g1).1
  = (GeometricBrownianMotion.simulate gbm s0 T n m gbm_v0 antithetic (Some seed) g2).1
  ∧ (HestonProcess.simulate heston s0 v0 T n m return_vol antithetic (Some seed) g1).1
    = (HestonProcess.simulate heston s0 v0 T n m return_vol antithetic (Some seed) g2).1.
Proof.
  intros Hnz.
  unfold GeometricBrownianMotion.simulate, GeometricBrownianMotion.brownian,
    HestonProcess.simulate.
  destruct (decide (0 ≤ seed ≤ 2 ^ 32 - 1)%Z) as [Hr|Hr].
  - pose proof (seed_guard_truthy_ok seed g1 Hnz Hr) as H1.
    pose proof (seed_guard_truthy_ok seed g2 Hnz Hr) as H2.
    split.
    + rewrite !bind_assoc.
      by rewrite (bind_ok _ _ _ _ _ H1), (bind_ok _ _ _ _ _ H2).
    + by rewrite (bind_ok _ _ _ _ _ H1), (bind_ok _ _ _ _ _ H2).
  - pose proof (seed_guard_refused seed g1 Hnz Hr) as H1.
    pose proof (seed_guard_refused seed g2 Hnz Hr) as H2.
    split.
    + rewrite !bind_assoc.
      by rewrite (bind_raise _ _ _ _ _ H1), (bind_raise _ _ _ _ _ H2).
    + by rewrite (bind_raise _ _ _ _ _ H1), (bind_raise _ _ _ _ _ H2).
Qed.

End Heston_properties.

(** ** The variance recursion *)

(** C8.  At every iteration [i] of the time loop of [HestonProcess.simulate]
    (on noise of the shape of the increments), once row [i + 1] of [v] is
    written from row [i], the whole array [v] is replaced by its absolute
    value, row by row and entry by entry: an entry [x] below zero of any row
    becomes [-x], not zero. *)
Theorem fold_replaces_whole_grid (self : HestonProcess.t) (s0 v0 dt : R)
    (z1 z2 : np.arr2) (m n i : nat) :
  shape z1 m n → shape z2 m n → (i < m)%nat →
  ∃ (st0 st_i st' : HestonProcess.grids) (v_i z1_i : np.arr1),
    HestonProcess.initial s0 v0 n m = Ok st0
    ∧ HestonProcess.loop (HestonProcess.step self dt z1 z2) st0 (seq 0 i) = Ok st_i
    ∧ HestonProcess.v st_i !! i = Some v_i ∧ z1 !! i = Some z1_i
    ∧ HestonProcess.step self dt z1 z2 st_i i = Ok st'
    ∧ let written :=
        <[(i + 1)%nat := zip_with (HestonProcess.variance_update self dt) v_i z1_i]>
          (HestonProcess.v st_i) in
      HestonProcess.v st' = np.elementwise absn written
      ∧ ∀ (j k : nat) (x : R),
          entry written j k = Some (np.real x) → x < 0 →
          entry (HestonProcess.v st') j k = Some (np.real (- x)).
Proof.
  intros Hz1 Hz2 Hi.
  destruct (loop_prefix self s0 v0 dt z1 z2 m n i Hz1 Hz2) as (st_i & Hloop & Hinv & _);
    [lia|].
  destruct (step_run self dt z1 z2 st_i m n i Hinv Hz1 Hz2 Hi)
    as (v_i & z1_i & st' & Hv_i & _ & Hz1_i & _ & Hstep & Hv & _).
  exists (initial_grids s0 v0 n m), st_i, st', v_i, z1_i.
  split; [apply initial_run|]. do 4 (split; [assumption|]).
  cbv zeta. split; [exact Hv|].
  intros j k x Hx Hneg. rewrite Hv, entry_elementwise, Hx. cbn.
  by rewrite Rabs_left.
Qed.

(** On one entry, the update with [milstein=True] is the update with
    [milstein=False] plus the Milstein term. *)
Lemma milstein_term_entry (self : HestonProcess.t) (dt : R) (v z : np.num) :
  HestonProcess.variance_update (with_milstein true self) dt v z
  = (HestonProcess.variance_update (with_milstein false self) dt v z
     + milstein_term self dt z)%np.
Proof.
  unfold HestonProcess.variance_update, milstein_term. cbn.
  destruct v as [x|], z as [y|]; cbn; try reflexivity.
  - case_bool_decide; cbn; [reflexivity|]. f_equal. lra.
  - case_bool_decide; reflexivity.
Qed.

(** The same on a row: the right-hand side of line 96 with [milstein=True]
    is that with [milstein=False] plus the row of the terms. *)
Lemma milstein_term_row (self : HestonProcess.t) (dt : R) (v_i z1_i : np.arr1) :
  zip_with (HestonProcess.variance_update (with_milstein true self) dt) v_i z1_i
  = zip_with (λ u z, u + milstein_term self dt z)%np
      (zip_with (HestonProcess.variance_update (with_milstein false self) dt) v_i z1_i)
      z1_i.
Proof.
  revert z1_i.
  induction v_i as [|v v_i IH]; intros [|z z1_i]; cbn [zip_with]; try reflexivity.
  by rewrite milstein_term_entry, IH.
Qed.

(** ** The simulators on the counter generator *)

Lemma variance_update_nan (self : HestonProcess.t) (dt v : R) (z : np.num) :
  v * dt < 0 → HestonProcess.variance_update self dt (np.real v) z = np.nan.
Proof.
  intros Hneg. unfold HestonProcess.variance_update. cbn.
  by rewrite bool_decide_eq_true_2.
Qed.

(** The Heston scenario with a negative [v0], one step and one path: row 0
    of the variance grid is folded to [0.04] and row 1 is [nan]. *)
Lemma heston_negative_v0 :
  ∃ s1 : np.num,
    HestonProcess.simulate (G := counter) heston_example 100 (-0.04) 1 1 1
      true false (Some 7%Z) 0%Z
    = (Ok (HestonProcess.PricesAndVol [[$100]; [s1]]%np [[$0.04]; [np.nan]]%np), 9%Z).
Proof.
  eexists. run_call.
  rewrite variance_update_nan by lra.
  rewrite (bool_decide_eq_false_2 (0 < -0.04)) by lra. cbn.
  peel. lra.
Qed.

(** The Brownian path of a call with [seed=0], one step and one path, from
    the state [k] of the counter. *)
Lemma brownian_seed0_from (k : Z) (antithetic : bool) :
  GeometricBrownianMotion.brownian (G := counter) 1 1 1 antithetic (Some 0%Z) k
  = (Ok [[$0]; [$((if antithetic then -1 else 1) * (IZR k + IZR (k + 1)))]]%np,
     (k + 2)%Z).
Proof.
  run_call. rewrite (bool_decide_eq_false_2 (1 / 1 < 0)) by lra. cbn.
  replace (1 / 1) with 1 by lra. rewrite sqrt_1.
  peel; [lra | lia].
Qed.

(** The GBM scenario with [seed=0], from the state [k] of the counter. *)
Lemma gbm_seed0_from (k : Z) :
  GeometricBrownianMotion.simulate (G := counter) gbm_example 100 1 1 1 None
    false (Some 0%Z) k
  = (Ok [[$100]; [$(100 * exp (0.03 + 0.2 * (IZR k + IZR (k + 1))))]]%np, (k + 2)%Z).
Proof.
  run_call. rewrite (bool_decide_eq_false_2 (1 / 1 < 0)) by lra. cbn.
  replace (1 / 1) with 1 by lra. rewrite sqrt_1.
  peel; [| |lia].
  - rewrite <- (Rmult_1_r 100) at 2. rewrite <- exp_0. do 2 f_equal. lra.
  - do 2 f_equal. lra.
Qed.


(** C4, as stated, fails: with [v0 = -0.04] row 0 of the returned variance
    grid is [0.04], not [v0]. *)
Lemma variance_row0_counterexample :
  ∃ (s v : np.arr2) (g' : Z),
    HestonProcess.simulate (G := counter) heston_example 100 (-0.04) 1 1 1
      true false (Some 7%Z) 0%Z
    = (Ok (HestonProcess.PricesAndVol s v), g')
    ∧ v !! 0%nat = Some [np.real 0.04]
    ∧ v !! 0%nat ≠ Some (replicate 1 (np.real (-0.04))).
Proof.
  destruct heston_negative_v0 as [s1 Hrun].
  eexists _, _, _. split; [exact Hrun|]. split; [reflexivity|].
  cbn. intros H. injection H as H. lra.
Qed.

(** C5.  At [seed=0] the guard [if seed:] skips [np.random.seed]: two calls
    of [GeometricBrownianMotion.simulate] in a row with the same seed [0]
    and the same parameters return different matrices, the second drawing
    from the state the first has left. *)
Lemma seed_zero_calls_differ :
  ∃ (s s' : np.arr2) (g1 g2 : Z),
    GeometricBrownianMotion.simulate (G := counter) gbm_example 100 1 1 1 None
      false (Some 0%Z) 0%Z = (Ok s, g1)
    ∧ GeometricBrownianMotion.simulate (G := counter) gbm_example 100 1 1 1 None
        false (Some 0%Z) g1 = (Ok s', g2)
    ∧ s ≠ s'.
Proof.
  eexists _, _, _, _. split; [apply gbm_seed0_from|]. split; [apply gbm_seed0_from|].
  cbn. intros H. injection H as H.
  apply Rmult_eq_reg_l in H; [|lra]. apply exp_inv in H.
  rewrite !plus_IZR in H. lra.
Qed.

(** C6.  At [seed=0] the guard [if seed:] skips [np.random.seed]: a plain
    call and then an antithetic call with the same seed [0] draw different
    deviates, and the Brownian path of the second is not the negation of
    that of the first. *)
Lemma antithetic_seed_zero_not_negated :
  ∃ (W W' : np.arr2) (g1 g2 : Z),
    GeometricBrownianMotion.brownian (G := counter) 1 1 1 false (Some 0%Z) 0%Z
    = (Ok W, g1)
    ∧ GeometricBrownianMotion.brownian (G := counter) 1 1 1 true (Some 0%Z) g1
      = (Ok W', g2)
    ∧ W' ≠ np.elementwise np.neg W.
Proof.
  eexists _, _, _, _.
  split; [apply brownian_seed0_from|]. split; [apply brownian_seed0_from|].
  cbn. intros H. injection H as _ H. rewrite !plus_IZR in H. lra.
Qed.

(** The first update of the Heston scenario from [v0 = 1] with one step and
    the deviate [-7]: below zero with and without the Milstein term. *)
Lemma variance_update_below_zero (b : bool) :
  HestonProcess.variance_update (with_milstein b heston_example) (1 / 1) $1
    (np.real (7 * -1))
  = np.real (if b then -1.94 else -3.02).
Proof.
  unfold HestonProcess.variance_update. cbn.
  rewrite (bool_decide_eq_false_2 (1 * (1 / 1) < 0)) by lra.
  replace (1 * (1 / 1)) with 1 by lra. rewrite sqrt_1.
  destruct b; cbn; f_equal; lra.
Qed.

(** The Heston scenario from [v0 = 1], one step and one path, antithetic,
    seed 7: row 1 of the variance grid with and without the Milstein term. *)
Lemma heston_folded_run (b : bool) :
  ∃ s1 : np.num,
    HestonProcess.simulate (G := counter) (with_milstein b heston_example) 100 1 1 1 1
      true true (Some 7%Z) 0%Z
    = (Ok (HestonProcess.PricesAndVol [[$100]; [s1]]%np
             [[$1]; [$(if b then 1.94 else 3.02)]]%np), 9%Z).
Proof.
  eexists. run_call. rewrite variance_update_below_zero.
  rewrite (bool_decide_eq_true_2 (0 < 1)) by lra.
  peel.
  destruct b; cbn; rewrite bool_decide_eq_false_2 by lra; f_equal; lra.
Qed.

(** C9, as stated, fails: from [v0 = 1] with one step, seed 7 and the
    antithetic flag, the two calls draw the same deviate [-7] and the term is
    [1.08], but the returned variance row 1 is [1.94] with [milstein=True]
    and [3.02] with [milstein=False]: both updates are below zero and are
    folded, so the rows differ by [-1.08]. *)
Lemma milstein_fold_counterexample :
  ∃ (z2 s_on v_on s_off v_off : np.arr2),
    HestonProcess.noise (G := counter) heston_example 1 1 true 7%Z
    = (Ok ([[np.real (-7)]], z2), 9%Z)
    ∧ HestonProcess.simulate (G := counter) (with_milstein true heston_example)
        100 1 1 1 1 true true (Some 7%Z) 0%Z
      = (Ok (HestonProcess.PricesAndVol s_on v_on), 9%Z)
    ∧ HestonProcess.simulate (G := counter) (with_milstein false heston_example)
        100 1 1 1 1 true true (Some 7%Z) 0%Z
      = (Ok (HestonProcess.PricesAndVol s_off v_off), 9%Z)
    ∧ milstein_term heston_example (1 / INR 1) (np.real (-7)) = np.real 1.08
    ∧ entry v_on 1 0 = Some (np.real 1.94)
    ∧ entry v_off 1 0 = Some (np.real 3.02)
    ∧ entry v_on 1 0
      ≠ (λ e, e + milstein_term heston_example (1 / INR 1) (np.real (-7)))%np
        <$> entry v_off 1 0.
Proof.
  destruct (heston_folded_run true) as [s_on Hon].
  destruct (heston_folded_run false) as [s_off Hoff].
  eexists _, _, _, _, _.
  split; [run_call; peel; lra|].
  split; [exact Hon|]. split; [exact Hoff|].
  split; [cbn; f_equal; lra|].
  do 2 (split; [reflexivity|]).
  cbn. intros H. injection H as H. lra.
Qed.

(** ** The theorems at concrete calls *)


Lemma simulate_shapes_witness :
  seed_ok (Some 7%Z) ∧ (1 ≤ 5)%nat ∧ (1 ≤ 1)%nat
  ∧ (∃ (s : np.arr2) (g' : Z),
       GeometricBrownianMotion.simulate (G := counter) gbm_example 100 1 1 5 None
         false (Some 7%Z) 0%Z = (Ok s, g')
       ∧ shape s (5 + 1) 1)
  ∧ (∃ (s v : np.arr2) (g' : Z),
       (∀ return_vol,
          HestonProcess.simulate (G := counter) heston_example 100 0.04 1 1 5
            return_vol false (Some 7%Z) 0%Z
          = (Ok (if negb return_vol
                 then HestonProcess.Prices s
                 else HestonProcess.PricesAndVol s v), g'))
       ∧ shape s (5 + 1) 1 ∧ shape v (5 + 1) 1).
Proof.
  assert (Hseed : seed_ok (Some 7%Z)) by (cbn; lia).
  assert (Hm : (1 ≤ 5)%nat) by lia.
  assert (Hn : (1 ≤ 1)%nat) by lia.
  do 3 (split; [assumption|]).
  exact (simulate_shapes (G := counter) gbm_example heston_example 100 0.04 1 1 5
           None false (Some 7%Z) 0%Z Hseed Hm Hn).
Defined.

Lemma gbm_row0_is_s0_witness :
  seed_ok (Some 42%Z) ∧ (1 ≤ 1)%nat
  ∧ ∃ (s : np.arr2) (g' : Z),
      GeometricBrownianMotion.simulate (G := counter) gbm_example 100 1 1 1 None
        false (Some 42%Z) 0%Z = (Ok s, g')
      ∧ s !! 0%nat = Some (replicate 1 (np.real 100)).
Proof.
  assert (Hseed : seed_ok (Some 42%Z)) by (cbn; lia).
  assert (Hm : (1 ≤ 1)%nat) by lia.
  do 2 (split; [assumption|]).
  exact (gbm_row0_is_s0 (G := counter) gbm_example 100 1 1 1 None false
           (Some 42%Z) 0%Z Hseed Hm).
Defined.

Lemma heston_row0_witness :
  seed_ok (Some 7%Z) ∧ (1 ≤ 5)%nat
  ∧ ∃ (s v : np.arr2) (g' : Z),
      (∀ return_vol,
         HestonProcess.simulate (G := counter) heston_example 100 0.04 1 1 5
           return_vol false (Some 7%Z) 0%Z
         = (Ok (if negb return_vol
                then HestonProcess.Prices s
                else HestonProcess.PricesAndVol s v), g'))
      ∧ s !! 0%nat = Some (replicate 1 (np.real 100))
      ∧ v !! 0%nat = Some (replicate 1 (np.real (Rabs 0.04)))
      ∧ (0 <= 0.04 → v !! 0%nat = Some (replicate 1 (np.real 0.04))).
Proof.
  assert (Hseed : seed_ok (Some 7%Z)) by (cbn; lia).
  assert (Hm : (1 ≤ 5)%nat) by lia.
  do 2 (split; [assumption|]).
  exact (heston_row0 (G := counter) heston_example 100 0.04 1 1 5 false
           (Some 7%Z) 0%Z Hseed Hm).
Defined.

Lemma seeded_calls_agree_witness :
  42%Z ≠ 0%Z
  ∧ (GeometricBrownianMotion.simulate (G := counter) gbm_example 100 1 1 5 None
       false (Some 42%Z) 0%Z).1
    = (GeometricBrownianMotion.simulate (G := counter) gbm_example 100 1 1 5 None
         false (Some 42%Z) 5%Z).1
  ∧ (HestonProcess.simulate (G := counter) heston_example 100 0.04 1 1 5 true
       false (Some 42%Z) 0%Z).1
    = (HestonProcess.simulate (G := counter) heston_example 100 0.04 1 1 5 true
         false (Some 42%Z) 5%Z).1.
Proof.
  assert (Hnz : 42%Z ≠ 0%Z) by lia.
  split; [assumption|].
  exact (seeded_calls_agree (G := counter) gbm_example heston_example 100 0.04 1 1 5
           None true false 42%Z 0%Z 5%Z Hnz).
Defined.

Lemma antithetic_path_is_negation_witness :
  42%Z ≠ 0%Z ∧ (0 ≤ 42 ≤ 2 ^ 32 - 1)%Z ∧ (1 ≤ 1)%nat
  ∧ ∃ (W : np.arr2) (g' : Z),
      GeometricBrownianMotion.brownian (G := counter) 1 1 1 false (Some 42%Z) 0%Z
      = (Ok W, g')
      ∧ GeometricBrownianMotion.brownian (G := counter) 1 1 1 true (Some 42%Z) 5%Z
        = (Ok (np.elementwise np.neg W), g')
      ∧ GeometricBrownianMotion.simulate (G := counter) gbm_example 100 1 1 1 None
          false (Some 42%Z) 0%Z
        = (Ok (GeometricBrownianMotion.prices gbm_example 100 1 1 1 W), g')
      ∧ GeometricBrownianMotion.simulate (G := counter) gbm_example 100 1 1 1 None
          true (Some 42%Z) 5%Z
        = (Ok (GeometricBrownianMotion.prices gbm_example 100 1 1 1
                 (np.elementwise np.neg W)), g').
Proof.
  assert (Hnz : 42%Z ≠ 0%Z) by lia.
  assert (Hrange : (0 ≤ 42 ≤ 2 ^ 32 - 1)%Z) by lia.
  assert (Hm : (1 ≤ 1)%nat) by lia.
  do 3 (split; [assumption|]).
  exact (antithetic_path_is_negation (G := counter) gbm_example 100 1 1 1 None
           42%Z 0%Z 5%Z Hnz Hrange Hm).
Defined.

Lemma fold_replaces_whole_grid_witness :
  shape [[np.real 1]; [np.real (-1)]] 2 1 ∧ shape [[np.real 1]; [np.real 1]] 2 1
  ∧ (1 < 2)%nat
  ∧ ∃ (st0 st_i st' : HestonProcess.grids) (v_i z1_i : np.arr1),
      HestonProcess.initial 100 0.04 1 2 = Ok st0
      ∧ HestonProcess.loop
          (HestonProcess.step heston_example 0.5
             [[np.real 1]; [np.real (-1)]] [[np.real 1]; [np.real 1]])
          st0 (seq 0 1) = Ok st_i
      ∧ HestonProcess.v st_i !! 1%nat = Some v_i
      ∧ [[np.real 1]; [np.real (-1)]] !! 1%nat = Some z1_i
      ∧ HestonProcess.step heston_example 0.5
          [[np.real 1]; [np.real (-1)]] [[np.real 1]; [np.real 1]] st_i 1 = Ok st'
      ∧ let written :=
          <[(1 + 1)%nat := zip_with (HestonProcess.variance_update heston_example 0.5)
                             v_i z1_i]>
            (HestonProcess.v st_i) in
        HestonProcess.v st' = np.elementwise absn written
        ∧ ∀ (j k : nat) (x : R),
            entry written j k = Some (np.real x) → x < 0 →
            entry (HestonProcess.v st') j k = Some (np.real (- x)).
Proof.
  assert (Hz1 : shape [[np.real 1]; [np.real (-1)]] 2 1)
    by (split; [reflexivity | repeat constructor]).
  assert (Hz2 : shape [[np.real 1]; [np.real 1]] 2 1)
    by (split; [reflexivity | repeat constructor]).
  assert (Hi : (1 < 2)%nat) by lia.
  do 3 (split; [assumption|]).
  exact (fold_replaces_whole_grid heston_example 100 0.04 0.5
           [[np.real 1]; [np.real (-1)]] [[np.real 1]; [np.real 1]] 2 1 1 Hz1 Hz2 Hi).
Defined.

(** * Further properties of the two simulators *)

(** ** What a call raises *)

Section Edge_behaviour.
Context `{G : Generator}.

Lemma seed_guard_state (seed : option Z) (g : rng) :
  seed_ok seed → seed_guard seed g = (Ok (), guarded_state seed g).
Proof.
  destruct seed as [s|]; cbn; [|reflexivity].
  intros Hs. destruct (s =? 0)%Z; cbn; [reflexivity|].
  unfold random_seed. by rewrite bool_decide_eq_true_2.
Qed.

(** X1.  With [m = 0] both simulators raise [ZeroDivisionError] at
    [dt = T / m]: nothing is drawn, but the seed guard has run, so a seed
    that is true has already reseeded the generator. *)
Theorem zero_steps_raise (gbm : GeometricBrownianMotion.t) (heston : HestonProcess.t)
    (s0 v0 T : R) (n : nat) (gbm_v0 : option R) (return_vol antithetic : bool)
    (seed : option Z) (g : rng) :
  seed_ok seed →
  GeometricBrownianMotion.simulate gbm s0 T n 0 gbm_v0 antithetic seed g
  = (Raise ZeroDivisionError, guarded_state seed g)
  ∧ HestonProcess.simulate heston s0 v0 T n 0 return_vol antithetic seed g
    = (Raise ZeroDivisionError, guarded_state seed g).
Proof.
  intros Hseed. pose proof (seed_guard_state seed g Hseed) as Hg.
  unfold GeometricBrownianMotion.simulate, GeometricBrownianMotion.brownian,
    HestonProcess.simulate.
  split.
  - rewrite bind_assoc, (bind_ok _ _ _ _ _ Hg). reflexivity.
  - rewrite (bind_ok _ _ _ _ _ Hg). reflexivity.
Qed.

(** X2.  A non-zero seed outside [0, 2**32 - 1] makes both simulators raise
    [ValueError] before anything else, whatever the other arguments ([m = 0]
    included), and the generator is left as it was. *)
Theorem refused_seed_raises (gbm : GeometricBrownianMotion.t) (heston : HestonProcess.t)
    (s0 v0 T : R) (n m : nat) (gbm_v0 : option R) (return_vol antithetic : bool)
    (seed : Z) (g : rng) :
  seed ≠ 0%Z → ¬ (0 ≤ seed ≤ 2 ^ 32 - 1)%Z →
  GeometricBrownianMotion.simulate gbm s0 T n m gbm_v0 antithetic (Some seed) g
  = (Raise ValueError, g)
  ∧ HestonProcess.simulate heston s0 v0 T n m return_vol antithetic (Some seed) g
    = (Raise ValueError, g).
Proof.
  intros Hnz Hbad. pose proof (seed_guard_refused seed g Hnz Hbad) as Hg.
  unfold GeometricBrownianMotion.simulate, GeometricBrownianMotion.brownian,
    HestonProcess.simulate.
  split.
  - rewrite bind_assoc. apply (bind_raise _ _ _ _ _ Hg).
  - apply (bind_raise _ _ _ _ _ Hg).
Qed.

(** ** How far a call advances the generator *)

Lemma advance_S (k : nat) (g : rng) :
  advance (S k) g = advance k (gauss g).2.
Proof.
  unfold advance. exact (Nat.iter_succ_r k (λ g, (gauss g).2) g).
Qed.

Lemma advance_add (j k : nat) (g : rng) :
  advance (j + k) g = advance k (advance j g).
Proof.
  revert g. induction j as [|j IH]; intros g; [reflexivity|].
  cbn [Nat.add]. by rewrite !advance_S, IH.
Qed.

Lemma random_row_advance (cols : nat) (g : rng) :
  ∃ r, random_row cols g = (Ok r, advance cols g).
Proof.
  revert g. induction cols as [|c IH]; intros g.
  - by exists [].
  - cbn [random_row]. rewrite advance_S. destruct (gauss g) as [z g1]. cbn [snd].
    destruct (IH g1) as [r Hr]. exists (np.real z :: r).
    by rewrite (bind_ok _ _ _ _ _ Hr).
Qed.

Lemma random_randn_advance (rows cols : nat) (g : rng) :
  ∃ z, random_randn rows cols g = (Ok z, advance (rows * cols) g).
Proof.
  revert g. induction rows as [|r IH]; intros g.
  - by exists [].
  - cbn [random_randn Nat.mul]. rewrite advance_add.
    destruct (random_row_advance cols g) as [row Hrow].
    destruct (IH (advance cols g)) as [z Hz]. exists (row :: z).
    by rewrite (bind_ok _ _ _ _ _ Hrow), (bind_ok _ _ _ _ _ Hz).
Qed.

Lemma bind_keeps_state {A B} (c : sim A) (k : A → sim B) (g : rng) :
  (∀ a g', (k a g').2 = g') → ((c ≫= k) g).2 = (c g).2.
Proof.
  intros Hk. unfold mbind, sim_bind.
  destruct (c g) as [[a|e] g']; [apply Hk | reflexivity].
Qed.

Lemma noise_advance (self : HestonProcess.t) (n m : nat) (antithetic : bool) (g : rng) :
  (HestonProcess.noise self n m antithetic g).2 = advance (2 * (m * n)) g.
Proof.
  unfold HestonProcess.noise.
  destruct (random_randn_advance m n g) as [z1 Hz1].
  destruct (random_randn_advance m n (advance (m * n) g)) as [e He].
  rewrite (bind_ok _ _ _ _ _ Hz1), (bind_ok _ _ _ _ _ He). cbn [snd].
  replace (2 * (m * n))%nat with (m * n + m * n)%nat by lia.
  by rewrite advance_add.
Qed.

(** X3.  A call that returns has advanced the generator, from the state the
    seed guard leaves, by exactly [(m + 1) * n] draws for
    [GeometricBrownianMotion.simulate] (one row more than the [m] steps) and
    by [2 * m * n] draws for [HestonProcess.simulate], whatever the model
    parameters, [s0], [v0], [T] and the flags. *)
Theorem draws_consumed (gbm : GeometricBrownianMotion.t) (heston : HestonProcess.t)
    (s0 v0 T : R) (n m : nat) (gbm_v0 : option R) (return_vol antithetic : bool)
    (seed : option Z) (g : rng) :
  seed_ok seed → (1 ≤ m)%nat →
  (∃ s : np.arr2,
     GeometricBrownianMotion.simulate gbm s0 T n m gbm_v0 antithetic seed g
     = (Ok s, advance ((m + 1) * n) (guarded_state seed g)))
  ∧ (∃ out : HestonProcess.output,
       HestonProcess.simulate heston s0 v0 T n m return_vol antithetic seed g
       = (Ok out, advance (2 * (m * n)) (guarded_state seed g))).
Proof.
  intros Hseed Hm. pose proof (seed_guard_state seed g Hseed) as Hg.
  assert (Hdt : truediv T m = Ok (T / INR m)).
  { unfold truediv. destruct (decide (m = 0)%nat); [lia | reflexivity]. }
  split.
  - destruct (gbm_simulate_run gbm s0 T n m gbm_v0 antithetic seed g Hseed Hm)
      as (W & g' & _ & Hrun).
    eexists. rewrite Hrun. f_equal.
    change g' with (Ok (GeometricBrownianMotion.prices gbm s0 T n m
                          (replicate n (np.real 0) :: W)), g').2.
    rewrite <- Hrun.
    unfold GeometricBrownianMotion.simulate, GeometricBrownianMotion.brownian.
    rewrite bind_keeps_state by reflexivity.
    rewrite (bind_ok _ _ _ _ _ Hg), Hdt, bind_lift_ok.
    rewrite bind_keeps_state by reflexivity.
    destruct (random_randn_advance (m + 1) n (guarded_state seed g)) as [z Hz].
    by rewrite Hz.
  - destruct (heston_simulate_run heston s0 v0 T n m antithetic seed g Hseed Hm)
      as (z1 & z2 & st & g' & _ & _ & _ & _ & Hrun).
    specialize (Hrun return_vol). eexists. rewrite Hrun. f_equal.
    match type of Hrun with _ = (?r, _) => change g' with (r, g').2 end.
    rewrite <- Hrun. unfold HestonProcess.simulate.
    rewrite (bind_ok _ _ _ _ _ Hg), Hdt, bind_lift_ok.
    rewrite bind_keeps_state; [apply noise_advance|].
    intros z g1. unfold mbind, sim_bind, lift.
    by destruct (HestonProcess.paths _ _ _ _ _ _ _ _).
Qed.

End Edge_behaviour.

(** ** The Brownian path of [GeometricBrownianMotion] *)

Lemma cumsum_from_next (acc : np.arr1) (a : np.arr2) (k : nat) :
  (acc :: np.cumsum_from acc a) !! S k
  = match (acc :: np.cumsum_from acc a) !! k, a !! k with
    | Some p, Some q => Some (zip_with np.add p q)
    | _, _ => None
    end.
Proof.
  revert acc k. induction a as [|r a IH]; intros acc k.
  - destruct k as [|k]; cbn; [reflexivity|]. by destruct k.
  - destruct k as [|k]; [reflexivity|].
    cbn [np.cumsum_from]. exact (IH (zip_with np.add acc r) k).
Qed.

(** [np.cumsum] row by row: each row is the row before plus the row of the
    argument. *)
Lemma cumsum_next (a : np.arr2) (k : nat) :
  np.cumsum a !! S k
  = match np.cumsum a !! k, a !! S k with
    | Some p, Some q => Some (zip_with np.add p q)
    | _, _ => None
    end.
Proof.
  destruct a as [|r a]; [reflexivity|]. exact (cumsum_from_next r a k).
Qed.

Lemma cumsum_first (a : np.arr2) : np.cumsum a !! 0%nat = a !! 0%nat.
Proof. by destruct a. Qed.

Lemma entry_cumsum_next (a : np.arr2) (k j : nat) (p q : np.num) :
  entry (np.cumsum a) k j = Some p → entry a (S k) j = Some q →
  entry (np.cumsum a) (S k) j = Some (p + q)%np.
Proof.
  unfold entry. rewrite cumsum_next. intros Hp Hq.
  destruct (np.cumsum a !! k) as [rp|]; [|discriminate].
  destruct (a !! S k) as [rq|]; [|discriminate].
  cbn in *. by rewrite lookup_zip_with, Hp, Hq.
Qed.

Lemma mul_add_distr (c : R) (p q : np.num) :
  ($c * (p + q) = $c * p + $c * q)%np.
Proof. destruct p, q; cbn; try reflexivity. f_equal. lra. Qed.

Section Brownian_path.
Context `{G : Generator}.

(** The path in terms of the deviates [z] of the call. *)
Lemma brownian_explicit (T : R) (n m : nat) (antithetic : bool) (seed : option Z)
    (g g' : rng) (z : np.arr2) :
  seed_ok seed → (1 ≤ m)%nat →
  random_randn (m + 1) n (guarded_state seed g) = (Ok z, g') →
  GeometricBrownianMotion.brownian T n m antithetic seed g
  = (Ok (replicate n (np.real 0)
         :: np.elementwise (np.mul (np.real (if antithetic then -1 else 1)))
              (drop 1 (np.cumsum
                         (np.elementwise (np.mul (np.sqrt (np.real (T / INR m)))) z)))),
     g').
Proof.
  intros Hseed Hm Hz.
  destruct (random_randn_ok (m + 1) n (guarded_state seed g)) as (z' & g'' & Hz' & Hshape & _).
  rewrite Hz in Hz'. injection Hz' as <- <-.
  pose proof (shape_cumsum _ _ _
    (shape_fmap (np.mul (np.sqrt (np.real (T / INR m)))) _ _ _ Hshape)) as [HCl HCw].
  destruct z as [|r0 z]; [destruct Hshape as [Hl _]; cbn in Hl; lia|].
  cbn [fmap list_fmap np.cumsum drop] in *.
  apply Forall_cons_1 in HCw as [Hr0 HCw].
  unfold GeometricBrownianMotion.brownian.
  rewrite (bind_ok _ _ _ _ _ (seed_guard_state seed g Hseed)).
  unfold truediv. destruct (decide (m = 0)%nat) as [->|_]; [lia|].
  rewrite bind_lift_ok, (bind_ok _ _ _ _ _ Hz).
  cbn [fmap list_fmap np.cumsum].
  unfold lift, np.setitem_scalar, np.getitem, np.setitem. cbn.
  destruct (decide _) as [_|Hn]; [|exfalso; lia].
  rewrite length_fmap in Hr0.
  rewrite fmap_const_length, !length_fmap, Hr0. reflexivity.
Qed.

(** X4.  In [GeometricBrownianMotion.simulate] the deviates of row 0 are not
    discarded by [W[0] = 0]: row 1 of the Brownian path is the sign times
    the sum of the scaled deviates of rows 0 and 1, and each later row is
    the row before plus the sign times the scaled deviates of its own
    row. *)
Theorem brownian_increments (T : R) (n m : nat) (antithetic : bool)
    (seed : option Z) (g : rng) :
  seed_ok seed → (1 ≤ m)%nat →
  ∃ (z W : np.arr2) (g' : rng),
    random_randn (m + 1) n (guarded_state seed g) = (Ok z, g')
    ∧ GeometricBrownianMotion.brownian T n m antithetic seed g = (Ok W, g')
    ∧ (∀ (j : nat) (a b : np.num),
         entry z 0 j = Some a → entry z 1 j = Some b →
         entry W 1 j
         = Some ($(if antithetic then -1 else 1)
                 * (np.sqrt $(T / INR m) * a + np.sqrt $(T / INR m) * b))%np)
    ∧ (∀ (k j : nat) (w c : np.num),
         (1 ≤ k)%nat → entry W k j = Some w → entry z (k + 1) j = Some c →
         entry W (k + 1) j
         = Some (w + $(if antithetic then -1 else 1) * (np.sqrt $(T / INR m) * c))%np).
Proof.
  intros Hseed Hm.
  destruct (random_randn_ok (m + 1) n (guarded_state seed g)) as (z & g' & Hz & _ & _).
  eexists z, _, g'. split; [exact Hz|].
  split; [exact (brownian_explicit T n m antithetic seed g g' z Hseed Hm Hz)|].
  set (sg := if antithetic then -1 else 1).
  set (E := np.elementwise (np.mul (np.sqrt (np.real (T / INR m)))) z).
  assert (Htail : ∀ k j, entry (replicate n (np.real 0)
                                 :: np.elementwise (np.mul (np.real sg))
                                      (drop 1 (np.cumsum E))) (S k) j
                         = np.mul (np.real sg) <$> entry (np.cumsum E) (S k) j).
  { intros k j. unfold entry at 1. cbn [lookup list_lookup].
    change (np.elementwise (np.mul $sg)%np (drop 1 (np.cumsum E)) !! k ≫= (.!! j))
      with (entry (np.elementwise (np.mul (np.real sg)) (drop 1 (np.cumsum E))) k j).
    rewrite entry_elementwise. unfold entry. by rewrite lookup_drop. }
  assert (HE : ∀ k j c, entry z k j = Some c
                        → entry E k j = Some (np.sqrt $(T / INR m) * c)%np).
  { intros k j c Hc. unfold E. by rewrite entry_elementwise, Hc. }
  split.
  - intros j a b Ha Hb. rewrite Htail.
    assert (H0 : entry (np.cumsum E) 0 j = Some (np.sqrt $(T / INR m) * a)%np).
    { unfold entry. rewrite cumsum_first. exact (HE 0%nat j a Ha). }
    by rewrite (entry_cumsum_next E 0 j _ _ H0 (HE 1%nat j b Hb)).
  - intros k j w c Hk Hw Hc. destruct k as [|k]; [lia|].
    rewrite Htail in Hw. replace (S k + 1)%nat with (S (S k)) in * by lia.
    rewrite Htail.
    destruct (entry (np.cumsum E) (S k) j) as [p|] eqn:Hp; [|discriminate].
    cbn in Hw. injection Hw as <-.
    rewrite (entry_cumsum_next E (S k) j _ _ Hp (HE _ j c Hc)). cbn [fmap option_fmap option_map].
    f_equal. apply mul_add_distr.
Qed.

End Brownian_path.

(** ** The prices of [GeometricBrownianMotion] *)

Lemma Forall2d_zip_with (P Q R : np.num → Prop) (f : np.num → np.num → np.num)
    (a b : np.arr2) :
  (∀ x y, P x → Q y → R (f x y)) →
  Forall (Forall P) a → Forall (Forall Q) b →
  Forall (Forall R) (zip_with (zip_with f) a b).
Proof.
  intros Hf. apply Forall_zip_with_intro. intros r r'.
  by apply Forall_zip_with_intro.
Qed.

Lemma Forall2d_elementwise (P Q : np.num → Prop) (f : np.num → np.num) (a : np.arr2) :
  (∀ x, P x → Q (f x)) → Forall (Forall P) a → Forall (Forall Q) (np.elementwise f a).
Proof.
  intros Hf Ha. apply Forall_fmap. revert Ha. apply Forall_impl. intros r Hr. cbn.
  apply Forall_fmap. revert Hr. apply Forall_impl. exact Hf.
Qed.

Lemma cumsum_from_real (acc : np.arr1) (a : np.arr2) :
  Forall is_real acc → Forall (Forall is_real) a →
  Forall (Forall is_real) (np.cumsum_from acc a).
Proof.
  intros Hacc Ha. revert acc Hacc.
  induction Ha as [|r a Hr Ha IH]; intros acc Hacc; cbn; [constructor|].
  assert (Hsum : Forall is_real (zip_with np.add acc r)).
  { apply (Forall_zip_with_intro is_real is_real); [|done..].
    intros x y (u & ->) (w & ->). by eexists. }
  constructor; [exact Hsum | by apply IH].
Qed.

Lemma cumsum_real (a : np.arr2) :
  Forall (Forall is_real) a → Forall (Forall is_real) (np.cumsum a).
Proof.
  intros Ha. destruct a as [|r a]; [constructor|].
  apply Forall_cons_1 in Ha as [Hr Ha]. cbn.
  constructor; [exact Hr | by apply cumsum_from_real].
Qed.

Lemma linspace_real (start stop : R) (num : nat) :
  Forall is_real (np.linspace start stop num).
Proof.
  unfold np.linspace. destruct (decide (1 < num)%nat).
  - apply Forall_insert; [|by eexists].
    apply Forall_fmap, Forall_forall. intros j _. by eexists.
  - apply Forall_fmap, Forall_forall. intros j _. by eexists.
Qed.

(** The time grid of [prices]. *)
Lemma time_grid_real (T : R) (n m : nat) :
  Forall (Forall is_real)
    ((λ t, (λ one, one * t)%np <$> np.ones n) <$> np.linspace 0 T (m + 1)).
Proof.
  apply Forall_fmap. generalize (linspace_real 0 T (m + 1)). apply Forall_impl.
  intros t (x & ->). cbn. apply Forall_fmap, Forall_replicate. by eexists.
Qed.

Lemma scaled_deviates_real (dt : R) (z : np.arr2) :
  0 <= dt → Forall (Forall is_real) z →
  Forall (Forall is_real) (np.elementwise (np.mul (np.sqrt (np.real dt))) z).
Proof.
  intros Hdt. apply Forall2d_elementwise. intros e (x & ->).
  cbn. rewrite bool_decide_eq_false_2 by lra. by eexists.
Qed.

Lemma dt_nonneg (T : R) (m : nat) : 0 <= T → (1 ≤ m)%nat → 0 <= T / INR m.
Proof.
  intros HT Hm. assert (0 < INR m) by (apply lt_0_INR; lia).
  apply Rmult_le_pos; [exact HT|]. by apply Rlt_le, Rinv_0_lt_compat.
Qed.

Lemma dt_neg (T : R) (m : nat) : T < 0 → (1 ≤ m)%nat → T / INR m < 0.
Proof.
  intros HT Hm. assert (0 < INR m) by (apply lt_0_INR; lia).
  assert (0 < / INR m) by by apply Rinv_0_lt_compat.
  unfold Rdiv. nra.
Qed.

Section GBM_prices.
Context `{G : Generator}.

(** For a horizon that is not negative the Brownian path holds numbers
    only. *)
Lemma brownian_real (T : R) (n m : nat) (seed : option Z) (g : rng) :
  seed_ok seed → (1 ≤ m)%nat → 0 <= T →
  ∃ (C : np.arr2) (g' : rng),
    shape C m n ∧ Forall (Forall is_real) C
    ∧ ∀ antithetic,
        GeometricBrownianMotion.brownian T n m antithetic seed g
        = (Ok (replicate n (np.real 0)
               :: np.elementwise (np.mul (np.real (if antithetic then -1 else 1))) C),
           g').
Proof.
  intros Hseed Hm HT.
  destruct (random_randn_ok (m + 1) n (guarded_state seed g)) as (z & g' & Hz & Hshape & Hreal).
  set (E := np.elementwise (np.mul (np.sqrt (np.real (T / INR m)))) z).
  exists (drop 1 (np.cumsum E)), g'. split; [|split].
  - destruct (shape_cumsum E (m + 1) n) as [Hl Hw]; [by apply shape_fmap|].
    split; [rewrite length_drop; lia | by apply Forall_drop].
  - apply Forall_drop, cumsum_real, scaled_deviates_real; [|exact Hreal].
    by apply dt_nonneg.
  - intros antithetic. by apply brownian_explicit.
Qed.

(** X5.  With [s0 > 0] and [T >= 0] (and at least one step), every entry of
    the matrix [GeometricBrownianMotion.simulate] returns is a number above
    zero, whatever [mu], [sigma], the flag and the deviates drawn. *)
Theorem gbm_prices_positive (self : GeometricBrownianMotion.t) (s0 T : R) (n m : nat)
    (v0 : option R) (antithetic : bool) (seed : option Z) (g : rng) :
  seed_ok seed → (1 ≤ m)%nat → 0 < s0 → 0 <= T →
  ∃ (s : np.arr2) (g' : rng),
    GeometricBrownianMotion.simulate self s0 T n m v0 antithetic seed g = (Ok s, g')
    ∧ Forall (Forall positive) s.
Proof.
  intros Hseed Hm Hs0 HT.
  destruct (brownian_real T n m seed g Hseed Hm HT) as (C & g' & _ & Hreal & Hrun).
  eexists _, g'. split.
  - unfold GeometricBrownianMotion.simulate.
    rewrite (bind_ok _ _ _ _ _ (Hrun antithetic)). reflexivity.
  - unfold GeometricBrownianMotion.prices.
    apply (Forall2d_zip_with is_real is_real); [|apply time_grid_real|].
    + intros t w (x & ->) (y & ->). eexists. split; [reflexivity|].
      apply Rmult_lt_0_compat; [exact Hs0 | apply exp_pos].
    + constructor; [apply Forall_replicate; by eexists|].
      revert Hreal. apply Forall2d_elementwise. intros e (x & ->). by eexists.
Qed.

End GBM_prices.

(** ** A negative horizon *)

Lemma zip_with_nan_r (f : np.num → np.num → np.num) (l : np.arr1) (n : nat) :
  (∀ t, f t np.nan = np.nan) → length l = n →
  zip_with f l (replicate n np.nan) = replicate n np.nan.
Proof.
  intros Hf. revert n. induction l as [|t l IH]; intros n Hn; subst n; cbn.
  - reflexivity.
  - by rewrite Hf, IH.
Qed.

Lemma mul_nan_row (r : np.arr1) :
  np.mul np.nan <$> r = replicate (length r) np.nan.
Proof. induction r as [|e r IH]; cbn; [reflexivity | by rewrite IH]. Qed.

Lemma cumsum_from_nan (n : nat) (a : np.arr2) :
  Forall (λ r, r = replicate n np.nan) a →
  Forall (λ r, r = replicate n np.nan) (np.cumsum_from (replicate n np.nan) a).
Proof.
  induction 1 as [|r a -> Ha IH]; cbn; [constructor|].
  assert (Hrow : zip_with np.add (replicate n np.nan) (replicate n np.nan)
                 = replicate n np.nan).
  { apply zip_with_nan_r; [by intros [t|] | apply length_replicate]. }
  rewrite Hrow. by constructor.
Qed.

Section GBM_negative_horizon.
Context `{G : Generator}.

(** X6.  With [T < 0] (and at least one step) [np.sqrt(dt)] is [nan]:
    [GeometricBrownianMotion.simulate] raises nothing and returns a matrix
    whose row 0 is [s0] and whose rows 1 to [m] are [nan] in every column,
    also when [sigma] is zero. *)
Theorem gbm_negative_horizon (self : GeometricBrownianMotion.t) (s0 T : R) (n m : nat)
    (v0 : option R) (antithetic : bool) (seed : option Z) (g : rng) :
  seed_ok seed → (1 ≤ m)%nat → T < 0 →
  ∃ (s : np.arr2) (g' : rng),
    GeometricBrownianMotion.simulate self s0 T n m v0 antithetic seed g = (Ok s, g')
    ∧ s !! 0%nat = Some (replicate n (np.real s0))
    ∧ ∀ k, (1 ≤ k ≤ m)%nat → s !! k = Some (replicate n np.nan).
Proof.
  intros Hseed Hm HT.
  destruct (random_randn_ok (m + 1) n (guarded_state seed g)) as (z & g' & Hz & Hshape & _).
  pose proof (brownian_explicit T n m antithetic seed g g' z Hseed Hm Hz) as Hrun.
  assert (Hsqrt : np.sqrt (np.real (T / INR m)) = np.nan).
  { cbn. by rewrite bool_decide_eq_true_2 by by apply dt_neg. }
  rewrite Hsqrt in Hrun.
  set (E := np.elementwise (np.mul np.nan) z) in Hrun.
  assert (HE : Forall (λ r, r = replicate n np.nan) E).
  { apply Forall_fmap. destruct Hshape as [_ Hw]. revert Hw. apply Forall_impl.
    intros r Hr. cbn. by rewrite mul_nan_row, Hr. }
  assert (HEl : length E = (m + 1)%nat).
  { unfold E. rewrite length_fmap. apply Hshape. }
  destruct E as [|c0 E']; [cbn in HEl; lia|].
  apply Forall_cons_1 in HE as [-> HE]. cbn [np.cumsum drop] in Hrun.
  pose proof (cumsum_from_nan n E' HE) as HC.
  set (C := np.cumsum_from (replicate n np.nan) E') in *.
  assert (HCl : length C = m).
  { destruct (shape_cumsum_from (replicate n np.nan) E' n) as [Hl _].
    - apply length_replicate.
    - revert HE. apply Forall_impl. intros r ->. apply length_replicate.
    - fold C in Hl. cbn in HEl. lia. }
  eexists _, g'. split; [|split].
  - unfold GeometricBrownianMotion.simulate.
    rewrite (bind_ok _ _ _ _ _ Hrun). reflexivity.
  - by apply prices_row0.
  - intros k [Hk1 Hk2]. unfold GeometricBrownianMotion.prices.
    rewrite lookup_zip_with, list_lookup_fmap.
    destruct (lookup_lt_is_Some_2 (np.linspace 0 T (m + 1)) k) as [t Ht];
      [rewrite linspace_length; lia|].
    rewrite Ht. cbn [fmap option_fmap option_map mbind option_bind].
    destruct k as [|k]; [lia|].
    rewrite lookup_cons_ne_0 by lia. cbn [Nat.pred].
    rewrite drop_0, list_lookup_fmap.
    destruct (lookup_lt_is_Some_2 C k) as [r Hr]; [lia|].
    rewrite Hr. cbn [fmap option_fmap option_map mbind option_bind].
    rewrite (Forall_lookup_1 _ _ _ _ HC Hr), fmap_replicate.
    change (np.mul _ np.nan) with np.nan.
    f_equal. apply zip_with_nan_r.
    + intros [x|]; reflexivity.
    + unfold np.ones. by rewrite length_fmap, length_replicate.
Qed.

End GBM_negative_horizon.

(** ** Antithetic pairs of prices *)

Lemma prices_entry (self : GeometricBrownianMotion.t) (s0 T : R) (n m : nat)
    (W : np.arr2) (k j : nat) (t w : np.num) :
  np.linspace 0 T (m + 1) !! k = Some t → entry W k j = Some w → (j < n)%nat →
  entry (GeometricBrownianMotion.prices self s0 T n m W) k j
  = Some ($s0 * np.exp ($(GeometricBrownianMotion.mu self
                           - 0.5 * GeometricBrownianMotion.sigma self ^ 2) * ($1 * t)
                        + $(GeometricBrownianMotion.sigma self) * w))%np.
Proof.
  intros Ht Hw Hj. unfold GeometricBrownianMotion.prices.
  erewrite entry_zip_with; [reflexivity | | exact Hw].
  unfold entry. rewrite list_lookup_fmap, Ht. cbn.
  rewrite list_lookup_fmap. unfold np.ones. by rewrite lookup_replicate_2.
Qed.

Lemma signed_path_entry (C : np.arr2) (n m k j : nat) :
  shape C m n → Forall (Forall is_real) C → (k ≤ m)%nat → (j < n)%nat →
  ∃ x : R, ∀ sg : R,
    entry (replicate n (np.real 0) :: np.elementwise (np.mul (np.real sg)) C) k j
    = Some (np.real (sg * x)).
Proof.
  intros HC Hreal Hk Hj. destruct k as [|k].
  - exists 0. intros sg. unfold entry. cbn. rewrite lookup_replicate_2 by done.
    do 2 f_equal. lra.
  - destruct (shape_lookup C m n k HC) as (r & Hr & Hlen); [lia|].
    destruct (lookup_lt_is_Some_2 r j) as [e He]; [lia|].
    destruct (Forall_lookup_1 _ _ _ _ (Forall_lookup_1 _ _ _ _ Hreal Hr) He) as [x ->].
    exists x. intros sg. unfold entry. rewrite lookup_cons_ne_0 by lia. cbn [Nat.pred].
    rewrite list_lookup_fmap, Hr. cbn. by rewrite list_lookup_fmap, He.
Qed.

Section GBM_antithetic.
Context `{G : Generator}.

(** X7.  Two calls of [GeometricBrownianMotion.simulate] with the same
    non-zero seed, one plain and one antithetic, with [T >= 0]: at every row
    [k] and column [j] both prices are numbers and their product is
    [s0^2 * exp(2*(mu - 0.5*sigma^2)*t)], where [t] is the time of row [k];
    the deviates cancel. *)
Theorem antithetic_prices_product (self : GeometricBrownianMotion.t) (s0 T : R)
    (n m : nat) (v0 : option R) (seed : Z) (g1 g2 : rng) :
  seed ≠ 0%Z → (0 ≤ seed ≤ 2 ^ 32 - 1)%Z → (1 ≤ m)%nat → 0 <= T →
  ∃ (s s' : np.arr2) (g' : rng),
    GeometricBrownianMotion.simulate self s0 T n m v0 false (Some seed) g1 = (Ok s, g')
    ∧ GeometricBrownianMotion.simulate self s0 T n m v0 true (Some seed) g2 = (Ok s', g')
    ∧ ∀ k j, (k ≤ m)%nat → (j < n)%nat →
        ∃ a b t : R,
          entry s k j = Some (np.real a) ∧ entry s' k j = Some (np.real b)
          ∧ np.linspace 0 T (m + 1) !! k = Some (np.real t)
          ∧ a * b
            = s0 ^ 2 * exp (2 * (GeometricBrownianMotion.mu self
                                 - 0.5 * GeometricBrownianMotion.sigma self ^ 2) * t).
Proof.
  intros Hnz Hrange Hm HT.
  assert (Hst : ∀ g, guarded_state (Some seed) g = seed_state seed).
  { intros g. cbn. by destruct (Z.eqb_spec seed 0). }
  destruct (brownian_real T n m (Some seed) g1 Hrange Hm HT) as (C & g' & HC & Hreal & Hrun1).
  destruct (brownian_real T n m (Some seed) g2 Hrange Hm HT) as (C2 & g2' & _ & _ & Hrun2).
  assert (HC2 : C2 = C ∧ g2' = g').
  { pose proof (Hrun1 false) as H1. pose proof (Hrun2 false) as H2.
    destruct (random_randn_ok (m + 1) n (seed_state seed)) as (z & gz & Hz & _ & _).
    rewrite (brownian_explicit T n m false (Some seed) g1 gz z Hrange Hm) in H1
      by by rewrite Hst.
    rewrite (brownian_explicit T n m false (Some seed) g2 gz z Hrange Hm) in H2
      by by rewrite Hst.
    rewrite H1 in H2. injection H2 as H2 ->. split; [|reflexivity].
    assert (Hone : ∀ D : np.arr2, np.elementwise (np.mul (np.real 1)) D = D).
    { intros D. rewrite <- (list_fmap_id D) at 2. apply list_fmap_ext. intros _ r _.
      rewrite <- (list_fmap_id r) at 2. apply list_fmap_ext. intros _ [x|] _; cbn;
        [f_equal; lra | reflexivity]. }
    by rewrite !Hone in H2. }
  destruct HC2 as [-> ->].
  exists (GeometricBrownianMotion.prices self s0 T n m
            (replicate n (np.real 0) :: np.elementwise (np.mul (np.real 1)) C)),
    (GeometricBrownianMotion.prices self s0 T n m
       (replicate n (np.real 0) :: np.elementwise (np.mul (np.real (-1))) C)), g'.
  split; [|split].
  - unfold GeometricBrownianMotion.simulate.
    rewrite (bind_ok _ _ _ _ _ (Hrun1 false)). reflexivity.
  - unfold GeometricBrownianMotion.simulate.
    rewrite (bind_ok _ _ _ _ _ (Hrun2 true)). reflexivity.
  - intros k j Hk Hj.
    destruct (signed_path_entry C n m k j HC Hreal Hk Hj) as [x Hx].
    destruct (lookup_lt_is_Some_2 (np.linspace 0 T (m + 1)) k) as [t Ht];
      [rewrite linspace_length; lia|].
    destruct (Forall_lookup_1 _ _ _ _ (linspace_real 0 T (m + 1)) Ht) as [τ ->].
    eexists _, _, τ.
    rewrite (prices_entry self s0 T n m _ k j _ _ Ht (Hx 1) Hj).
    rewrite (prices_entry self s0 T n m _ k j _ _ Ht (Hx (-1)) Hj).
    split; [reflexivity|]. split; [reflexivity|]. split; [exact Ht|].
    match goal with
    | |- s0 * exp ?A * (s0 * exp ?B) = _ =>
        replace (s0 * exp A * (s0 * exp B)) with (s0 ^ 2 * (exp A * exp B)) by ring;
        rewrite <- exp_plus
    end.
    do 2 f_equal. lra.
Qed.

End GBM_antithetic.

(** ** The grids of [HestonProcess], row by row *)

Lemma absn_idemp (e : np.num) : absn (absn e) = absn e.
Proof. destruct e as [x|]; cbn; [f_equal; apply Rabs_Rabsolu | reflexivity]. Qed.

Lemma absn_row_idemp (r : np.arr1) : absn <$> (absn <$> r) = absn <$> r.
Proof.
  rewrite <- list_fmap_compose. apply list_fmap_ext. intros _ e _. apply absn_idemp.
Qed.

(** One iteration, with the grids it leaves. *)
Lemma step_full (self : HestonProcess.t) (dt : R) (z1 z2 : np.arr2)
    (st : HestonProcess.grids) (m n i : nat) :
  grids_shape st m n → shape z1 m n → shape z2 m n → (i < m)%nat →
  ∃ (v_i z1_i z2_i x_i s_0 : np.arr1),
    HestonProcess.v st !! i = Some v_i ∧ z1 !! i = Some z1_i ∧ z2 !! i = Some z2_i
    ∧ HestonProcess.x st !! i = Some x_i ∧ HestonProcess.s st !! 0%nat = Some s_0
    ∧ let v' := np.elementwise absn
                  (<[(i + 1)%nat := zip_with (HestonProcess.variance_update self dt)
                                      v_i z1_i]> (HestonProcess.v st)) in
      let x' := <[(i + 1)%nat :=
                   zip_with (λ xv z, HestonProcess.logprice_update self dt xv.1 xv.2 z)
                     (zip x_i (absn <$> v_i)) z2_i]>
                  (HestonProcess.x st) in
      HestonProcess.step self dt z1 z2 st i
      = Ok {| HestonProcess.s :=
                take 1 (HestonProcess.s st)
                ++ ((λ r, zip_with (λ a e, a * np.exp e)%np s_0 r) <$> drop 1 x');
              HestonProcess.x := x';
              HestonProcess.v := v' |}.
Proof.
  intros (Hs & Hx & Hv) Hz1 Hz2 Hi.
  destruct (shape_lookup _ _ _ i Hv) as (v_i & Hv_i & Hlv); [lia|].
  destruct (shape_lookup _ _ _ i Hz1) as (z1_i & Hz1_i & Hlz1); [lia|].
  destruct (shape_lookup _ _ _ i Hz2) as (z2_i & Hz2_i & Hlz2); [lia|].
  destruct (shape_lookup _ _ _ i Hx) as (x_i & Hx_i & Hlx); [lia|].
  destruct (shape_lookup _ _ _ 0 Hs) as (s_0 & Hs_0 & Hls); [lia|].
  exists v_i, z1_i, z2_i, x_i, s_0. do 5 (split; [assumption|]).
  cbv zeta. unfold HestonProcess.step.
  rewrite (getitem_ok _ _ _ Hv_i), (getitem_ok _ _ _ Hz1_i). cbn [mbind result_bind].
  rewrite setitem_ok by (destruct Hv as [-> _]; lia). cbn [mbind result_bind].
  rewrite where_pos_else_neg_abs.
  set (v' := np.elementwise absn _).
  assert (Hv'_i : v' !! i = Some (absn <$> v_i)).
  { unfold v'. rewrite list_lookup_fmap, list_lookup_insert_ne by lia. by rewrite Hv_i. }
  rewrite (getitem_ok _ _ _ Hx_i), (getitem_ok _ _ _ Hv'_i), (getitem_ok _ _ _ Hz2_i).
  cbn [mbind result_bind].
  rewrite setitem_ok by (destruct Hx as [-> _]; lia). cbn [mbind result_bind].
  by rewrite (getitem_ok _ _ _ Hs_0).
Qed.

(** A property indexed by the iteration: if each iteration takes it from
    its index to the next, the loop over [a, a + len) takes it from [a] to
    [a + len], and raises nothing. *)
Lemma loop_invariant_indexed (P : nat → HestonProcess.grids → Prop)
    (body : HestonProcess.grids → nat → result HestonProcess.grids)
    (a len : nat) (st : HestonProcess.grids) :
  P a st →
  (∀ i st, (a ≤ i < a + len)%nat → P i st → ∃ st', body st i = Ok st' ∧ P (S i) st') →
  ∃ st', HestonProcess.loop body st (seq a len) = Ok st' ∧ P (a + len)%nat st'.
Proof.
  revert a st. induction len as [|len IH]; intros a st HP Hbody; cbn [seq HestonProcess.loop].
  - exists st. by rewrite Nat.add_0_r.
  - destruct (Hbody a st) as (st1 & Hst1 & HP1); [lia | done |].
    rewrite Hst1. cbn [mbind result_bind].
    destruct (IH (S a) st1 HP1) as (st' & Hloop & HP').
    + intros i st2 Hi. apply Hbody. lia.
    + exists st'. split; [exact Hloop|]. by replace (a + S len)%nat with (S a + len)%nat by lia.
Qed.

Lemma variance_row_folded (self : HestonProcess.t) (dt v0 : R) (n : nat) (z1 : np.arr2)
    (k : nat) :
  (1 ≤ k)%nat →
  absn <$> variance_row self dt v0 n z1 k = variance_row self dt v0 n z1 k.
Proof. destruct k as [|k]; [lia|]. intros _. cbn. apply absn_row_idemp. Qed.

Lemma rows_inv_initial (self : HestonProcess.t) (s0 v0 dt : R) (m n : nat)
    (z1 z2 : np.arr2) :
  rows_inv self s0 v0 dt m n z1 z2 0 (initial_grids s0 v0 n m).
Proof.
  split; [apply initial_grids_shape|]. cbn.
  replace (m + 1)%nat with (S m) by lia. cbn.
  do 2 (split; [reflexivity|]). split; [intros k; lia|].
  split; [|intros; lia].
  intros k Hk. by replace k with 0%nat by lia.
Qed.

Lemma rows_inv_step (self : HestonProcess.t) (s0 v0 dt : R) (m n : nat)
    (z1 z2 : np.arr2) (i : nat) (st : HestonProcess.grids) :
  shape z1 m n → shape z2 m n → (i < m)%nat →
  rows_inv self s0 v0 dt m n z1 z2 i st →
  ∃ st', HestonProcess.step self dt z1 z2 st i = Ok st'
         ∧ rows_inv self s0 v0 dt m n z1 z2 (S i) st'.
Proof.
  intros Hz1 Hz2 Hi (Hshape & Hs0 & Hv0 & Hv & Hx & Hs).
  destruct (step_run self dt z1 z2 st m n i Hshape Hz1 Hz2 Hi)
    as (_ & _ & st' & _ & _ & _ & _ & Hstep' & _ & _ & Hshape').
  destruct (step_full self dt z1 z2 st m n i Hshape Hz1 Hz2 Hi)
    as (v_i & z1_i & z2_i & x_i & s_0 & Hv_i & Hz1_i & Hz2_i & Hx_i & Hs_0 & Hstep).
  cbv zeta in Hstep. rewrite Hstep in Hstep'. injection Hstep' as Hst'.
  assert (Hvi : v_i = variance_row self dt v0 n z1 i).
  { destruct (decide (i = 0)%nat) as [->|Hne].
    - rewrite Hv0 in Hv_i. cbn in Hv_i. by injection Hv_i as <-.
    - rewrite Hv in Hv_i by lia. by injection Hv_i as <-. }
  assert (Hxi : x_i = logprice_row self dt v0 n z1 z2 i).
  { rewrite Hx in Hx_i by lia. by injection Hx_i as <-. }
  assert (Hs0' : s_0 = replicate n (np.real s0)) by congruence.
  subst v_i x_i s_0.
  assert (Hlv : length (HestonProcess.v st) = (m + 1)%nat) by apply Hshape.
  assert (Hlx : length (HestonProcess.x st) = (m + 1)%nat) by apply Hshape.
  assert (Hls : length (HestonProcess.s st) = (m + 1)%nat) by apply Hshape.
  eexists. split; [exact Hstep|].
  split; [by rewrite Hst'|]. cbn [HestonProcess.s HestonProcess.x HestonProcess.v].
  split; [|split; [|split; [|split]]].
  - rewrite lookup_app_l by (rewrite length_take; lia).
    by rewrite lookup_take_lt by lia.
  - rewrite decide_False by lia.
    rewrite list_lookup_fmap, list_lookup_insert_ne by lia. rewrite Hv0.
    destruct (decide (i = 0)%nat); cbn; [reflexivity | by rewrite absn_row_idemp].
  - intros k Hk. rewrite list_lookup_fmap.
    destruct (decide (k = i + 1)%nat) as [->|Hne].
    + rewrite list_lookup_insert_eq by lia. cbn [fmap option_fmap option_map].
      replace (i + 1)%nat with (S i) by lia. cbn [variance_row]. by rewrite Hz1_i.
    + rewrite list_lookup_insert_ne by lia. rewrite Hv by lia.
      cbn [fmap option_fmap option_map]. by rewrite variance_row_folded by lia.
  - intros k Hk. destruct (decide (k = i + 1)%nat) as [->|Hne].
    + rewrite list_lookup_insert_eq by lia.
      replace (i + 1)%nat with (S i) by lia. cbn [logprice_row]. by rewrite Hz2_i.
    + rewrite list_lookup_insert_ne by lia. apply Hx. lia.
  - intros _ k Hk.
    rewrite lookup_app_r by (rewrite length_take; lia).
    rewrite length_take, Hls, list_lookup_fmap, lookup_drop.
    by replace (1 + (k - 1 `min` (m + 1)))%nat with k by lia.
Qed.

(** The grids a call computes, row by row. *)
Lemma paths_rows (self : HestonProcess.t) (s0 v0 dt : R) (z1 z2 : np.arr2) (m n : nat) :
  shape z1 m n → shape z2 m n →
  ∃ st, HestonProcess.paths self s0 v0 dt n m z1 z2 = Ok st
        ∧ rows_inv self s0 v0 dt m n z1 z2 m st.
Proof.
  intros Hz1 Hz2.
  destruct (loop_invariant_indexed (rows_inv self s0 v0 dt m n z1 z2)
              (HestonProcess.step self dt z1 z2) 0 m (initial_grids s0 v0 n m))
    as (st & Hloop & Hinv).
  - apply rows_inv_initial.
  - intros i st Hi. apply rows_inv_step; [done | done | lia].
  - exists st. split; [|exact Hinv].
    unfold HestonProcess.paths. by rewrite initial_run.
Qed.

Section Heston_rows.
Context `{G : Generator}.

(** A call in terms of its noise and of the grids [paths] computes. *)
Lemma heston_run_noise (self : HestonProcess.t) (s0 v0 T : R) (n m : nat)
    (return_vol antithetic : bool) (seed : option Z) (g g' : rng)
    (z1 z2 : np.arr2) (st : HestonProcess.grids) :
  seed_ok seed → (1 ≤ m)%nat →
  HestonProcess.noise self n m antithetic (guarded_state seed g) = (Ok (z1, z2), g') →
  HestonProcess.paths self s0 v0 (T / INR m) n m z1 z2 = Ok st →
  HestonProcess.simulate self s0 v0 T n m return_vol antithetic seed g
  = (Ok (if negb return_vol
         then HestonProcess.Prices (HestonProcess.s st)
         else HestonProcess.PricesAndVol (HestonProcess.s st) (HestonProcess.v st)), g').
Proof.
  intros Hseed Hm Hnoise Hpaths. unfold HestonProcess.simulate.
  rewrite (bind_ok _ _ _ _ _ (seed_guard_state seed g Hseed)).
  unfold truediv. destruct (decide (m = 0)%nat) as [->|_]; [lia|].
  rewrite bind_lift_ok, (bind_ok _ _ _ _ _ Hnoise). cbn [fst snd].
  by rewrite Hpaths, bind_lift_ok.
Qed.

(** The noise of a call has the shape of the increments. *)
Lemma noise_shape (self : HestonProcess.t) (n m : nat) (antithetic : bool) (g : rng) :
  ∃ (z1 z2 : np.arr2) (g' : rng),
    HestonProcess.noise self n m antithetic g = (Ok (z1, z2), g')
    ∧ shape z1 m n ∧ shape z2 m n ∧ Forall (Forall is_real) z1.
Proof.
  destruct (noise_run self n m g) as (e1 & e2 & g1 & g' & _ & _ & Hs1 & Hs2 & Hr1 & Hnoise).
  eexists _, _, g'. split; [apply Hnoise|].
  split; [by apply shape_fmap|]. split; [by apply shape_fmap, shape_zip_with|].
  revert Hr1. apply Forall2d_elementwise. intros e. apply mul_real_is_real.
Qed.

(** X8.  The variance grid [HestonProcess.simulate] returns, row by row:
    row 0 is the absolute value of [v0]; row 1 is the absolute value of the
    update computed from [v0] itself (not from its absolute value) and the
    deviates [z1[0]]; every later row [i + 1] is the absolute value of the
    update computed from the returned row [i] and [z1[i]].  The fold of the
    whole array at each iteration changes no row written before, row 0
    apart. *)
Theorem variance_grid_recursion (self : HestonProcess.t) (s0 v0 T : R) (n m : nat)
    (antithetic : bool) (seed : option Z) (g : rng) :
  seed_ok seed → (1 ≤ m)%nat →
  ∃ (z1 z2 s v : np.arr2) (g' : rng),
    HestonProcess.noise self n m antithetic (guarded_state seed g) = (Ok (z1, z2), g')
    ∧ HestonProcess.simulate self s0 v0 T n m true antithetic seed g
      = (Ok (HestonProcess.PricesAndVol s v), g')
    ∧ v !! 0%nat = Some (replicate n (np.real (Rabs v0)))
    ∧ (∀ zr, z1 !! 0%nat = Some zr →
         v !! 1%nat
         = Some (absn <$> zip_with (HestonProcess.variance_update self (T / INR m))
                            (replicate n (np.real v0)) zr))
    ∧ (∀ (i : nat) (r zr : np.arr1),
         (1 ≤ i < m)%nat → v !! i = Some r → z1 !! i = Some zr →
         v !! (i + 1)%nat
         = Some (absn <$> zip_with (HestonProcess.variance_update self (T / INR m)) r zr)).
Proof.
  intros Hseed Hm.
  destruct (noise_shape self n m antithetic (guarded_state seed g))
    as (z1 & z2 & g' & Hnoise & Hz1 & Hz2 & _).
  destruct (paths_rows self s0 v0 (T / INR m) z1 z2 m n Hz1 Hz2)
    as (st & Hpaths & _ & _ & Hv0 & Hv & _).
  exists z1, z2, (HestonProcess.s st), (HestonProcess.v st), g'.
  split; [exact Hnoise|].
  split; [exact (heston_run_noise self s0 v0 T n m true antithetic seed g g' z1 z2 st
                   Hseed Hm Hnoise Hpaths)|].
  split; [|split].
  - rewrite Hv0, decide_False by lia. cbn. by rewrite fmap_replicate.
  - intros zr Hzr. rewrite Hv by lia. cbn. by rewrite Hzr.
  - intros i r zr Hi Hr Hzr. rewrite Hv in Hr by lia. injection Hr as <-.
    rewrite Hv by lia. replace (i + 1)%nat with (S i) by lia. cbn. by rewrite Hzr.
Qed.

(** X9.  The price matrix [HestonProcess.simulate] returns is [s0 * exp(x)]
    of one log-price grid [x], row by row: row 0 of [x] is zero and row 0 of
    the prices is [s0]; row [i + 1] of [x] is the log-price update of row
    [i] of [x], the returned variance row [i] and the deviates [z2[i]].
    Recomputing [s[1:]] inside the loop gives what one computation after it
    would. *)
Theorem prices_from_logprices (self : HestonProcess.t) (s0 v0 T : R) (n m : nat)
    (antithetic : bool) (seed : option Z) (g : rng) :
  seed_ok seed → (1 ≤ m)%nat →
  ∃ (z1 z2 s v x : np.arr2) (g' : rng),
    HestonProcess.noise self n m antithetic (guarded_state seed g) = (Ok (z1, z2), g')
    ∧ HestonProcess.simulate self s0 v0 T n m true antithetic seed g
      = (Ok (HestonProcess.PricesAndVol s v), g')
    ∧ shape x (m + 1) n
    ∧ x !! 0%nat = Some (replicate n (np.real 0))
    ∧ (∀ (i : nat) (xr vr zr : np.arr1),
         (i < m)%nat → x !! i = Some xr → v !! i = Some vr → z2 !! i = Some zr →
         x !! (i + 1)%nat
         = Some (zip_with
                   (λ xv z, HestonProcess.logprice_update self (T / INR m) xv.1 xv.2 z)
                   (zip xr vr) zr))
    ∧ s !! 0%nat = Some (replicate n (np.real s0))
    ∧ (∀ k, (1 ≤ k ≤ m)%nat →
         s !! k = zip_with (λ a e, a * np.exp e)%np (replicate n (np.real s0)) <$> x !! k).
Proof.
  intros Hseed Hm.
  destruct (noise_shape self n m antithetic (guarded_state seed g))
    as (z1 & z2 & g' & Hnoise & Hz1 & Hz2 & _).
  destruct (paths_rows self s0 v0 (T / INR m) z1 z2 m n Hz1 Hz2)
    as (st & Hpaths & Hshape & Hs0 & Hv0 & Hv & Hx & Hs).
  exists z1, z2, (HestonProcess.s st), (HestonProcess.v st), (HestonProcess.x st), g'.
  split; [exact Hnoise|].
  split; [exact (heston_run_noise self s0 v0 T n m true antithetic seed g g' z1 z2 st
                   Hseed Hm Hnoise Hpaths)|].
  split; [apply Hshape|]. split; [by rewrite Hx by lia|].
  split; [|split; [exact Hs0 | by apply Hs]].
  intros i xr vr zr Hi Hxr Hvr Hzr.
  rewrite Hx in Hxr by lia. injection Hxr as <-.
  assert (Hvi : vr = absn <$> variance_row self (T / INR m) v0 n z1 i).
  { destruct (decide (i = 0)%nat) as [->|Hne].
    - rewrite Hv0, decide_False in Hvr by lia. by injection Hvr as <-.
    - rewrite Hv in Hvr by lia. injection Hvr as <-.
      by rewrite variance_row_folded by lia. }
  subst vr. rewrite Hx by lia. replace (i + 1)%nat with (S i) by lia. cbn.
  by rewrite Hzr.
Qed.

End Heston_rows.

(** ** The Milstein term in two calls *)

Section Milstein_runs.
Context `{G : Generator}.

(** C9, amended.  Two calls of [HestonProcess.simulate] that differ in the
    Milstein flag only and draw from the same generator state (the same
    non-zero seed, or the same state before the call) get the same noise
    [z1], [z2].  At every step the row written into [v[i + 1]] with
    [milstein=True] is the row [milstein=False] computes from the same row
    [v[i]] and the same deviates [z1[i]], plus the term
    [eta^2/4*(z1[i]^2 - 1)*dt]; the returned row is the absolute value of
    the row written, and from step 1 on each call reads the row [v[i]] it
    has returned itself.  So the two returned rows 1 are the absolute values
    of two rows that differ by the term exactly, and they differ by the
    term themselves wherever neither is folded. *)
Theorem milstein_term_before_fold (self : HestonProcess.t) (s0 v0 T : R) (n m : nat)
    (antithetic : bool) (seed : option Z) (g1 g2 : rng) :
  seed_ok seed → (1 ≤ m)%nat → guarded_state seed g1 = guarded_state seed g2 →
  let dt := T / INR m in
  let euler := HestonProcess.variance_update (with_milstein false self) dt in
  let corrected := λ r zr : np.arr1,
    zip_with (λ u z, u + milstein_term self dt z)%np (zip_with euler r zr) zr in
  ∃ (z1 z2 s_on v_on s_off v_off : np.arr2) (g' : rng),
    HestonProcess.noise (with_milstein true self) n m antithetic (guarded_state seed g1)
    = (Ok (z1, z2), g')
    ∧ HestonProcess.noise (with_milstein false self) n m antithetic (guarded_state seed g2)
      = (Ok (z1, z2), g')
    ∧ HestonProcess.simulate (with_milstein true self) s0 v0 T n m true antithetic seed g1
      = (Ok (HestonProcess.PricesAndVol s_on v_on), g')
    ∧ HestonProcess.simulate (with_milstein false self) s0 v0 T n m true antithetic seed g2
      = (Ok (HestonProcess.PricesAndVol s_off v_off), g')
    ∧ (∀ zr : np.arr1, z1 !! 0%nat = Some zr →
         v_on !! 1%nat = Some (absn <$> corrected (replicate n (np.real v0)) zr)
         ∧ v_off !! 1%nat = Some (absn <$> zip_with euler (replicate n (np.real v0)) zr))
    ∧ (∀ (i : nat) (r zr : np.arr1), (1 ≤ i < m)%nat → z1 !! i = Some zr →
         (v_on !! i = Some r → v_on !! (i + 1)%nat = Some (absn <$> corrected r zr))
         ∧ (v_off !! i = Some r
            → v_off !! (i + 1)%nat = Some (absn <$> zip_with euler r zr)))
    ∧ (∀ (k : nat) (z : np.num) (a t : R),
         entry z1 0 k = Some z →
         euler (np.real v0) z = np.real a → milstein_term self dt z = np.real t →
         0 <= a → 0 <= a + t →
         entry v_off 1 k = Some (np.real a) ∧ entry v_on 1 k = Some (np.real (a + t))).
Proof.
  intros Hseed Hm Hg dt euler corrected.
  destruct (noise_shape self n m antithetic (guarded_state seed g1))
    as (z1 & z2 & g' & Hnoise & Hz1 & Hz2 & _).
  destruct (paths_rows (with_milstein true self) s0 v0 dt z1 z2 m n Hz1 Hz2)
    as (st_on & Hp_on & _ & _ & _ & Hv_on & _).
  destruct (paths_rows (with_milstein false self) s0 v0 dt z1 z2 m n Hz1 Hz2)
    as (st_off & Hp_off & _ & _ & _ & Hv_off & _).
  assert (Hrow1 : ∀ zr : np.arr1, z1 !! 0%nat = Some zr →
            HestonProcess.v st_on !! 1%nat
            = Some (absn <$> corrected (replicate n (np.real v0)) zr)
            ∧ HestonProcess.v st_off !! 1%nat
              = Some (absn <$> zip_with euler (replicate n (np.real v0)) zr)).
  { intros zr Hzr. rewrite Hv_on, Hv_off by lia. cbn [variance_row]. rewrite Hzr.
    change (default [] (Some zr)) with zr. by rewrite milstein_term_row. }
  exists z1, z2, (HestonProcess.s st_on), (HestonProcess.v st_on),
    (HestonProcess.s st_off), (HestonProcess.v st_off), g'.
  split; [exact Hnoise|]. split; [rewrite <- Hg; exact Hnoise|].
  split; [exact (heston_run_noise (with_milstein true self) s0 v0 T n m true antithetic
                   seed g1 g' z1 z2 st_on Hseed Hm Hnoise Hp_on)|].
  split.
  { apply (heston_run_noise (with_milstein false self) s0 v0 T n m true antithetic
             seed g2 g' z1 z2 st_off Hseed Hm); [rewrite <- Hg; exact Hnoise | exact Hp_off]. }
  split; [exact Hrow1|]. split.
  - intros i r zr Hi Hzr. split; intros Hr.
    + rewrite Hv_on in Hr by lia. injection Hr as <-.
      rewrite Hv_on by lia. replace (i + 1)%nat with (S i) by lia.
      cbn [variance_row]. rewrite Hzr. change (default [] (Some zr)) with zr.
      by rewrite milstein_term_row.
    + rewrite Hv_off in Hr by lia. injection Hr as <-.
      rewrite Hv_off by lia. replace (i + 1)%nat with (S i) by lia.
      cbn [variance_row]. by rewrite Hzr.
  - intros k z a t Hz Ha Ht Hpos Hpos'.
    unfold entry in Hz. destruct (z1 !! 0%nat) as [zr|] eqn:Hzr; [|done].
    cbn in Hz. destruct (Hrow1 zr eq_refl) as [Hon Hoff].
    assert (Hk : (k < n)%nat).
    { destruct (shape_lookup _ _ _ 0 Hz1) as (zr' & Hzr' & Hl); [lia|].
      assert (zr' = zr) as -> by congruence.
      rewrite <- Hl. by apply lookup_lt_Some with z. }
    unfold entry. rewrite Hon, Hoff. cbn [mbind option_bind]. unfold corrected.
    rewrite !list_lookup_fmap, !lookup_zip_with, lookup_replicate_2, Hz by exact Hk.
    cbn [mbind option_bind fmap option_fmap option_map].
    fold euler. rewrite Ha, Ht. cbn.
    rewrite !Rabs_right by lra. done.
Qed.

End Milstein_runs.

(** ** Where [HestonProcess] returns [nan] *)

Lemma zip_with_absorb_r {A} (f : A → np.num → np.num) (l : list A) (n : nat) :
  (∀ a, f a np.nan = np.nan) → length l = n →
  zip_with f l (replicate n np.nan) = replicate n np.nan.
Proof.
  intros Hf. revert n. induction l as [|a l IH]; intros n Hn; subst n; cbn.
  - reflexivity.
  - by rewrite Hf, IH.
Qed.

Lemma zip_with_const_l {B} (f : np.num → B → np.num) (a c : np.num) (l : list B)
    (n : nat) :
  (∀ b, f a b = c) → length l = n → zip_with f (replicate n a) l = replicate n c.
Proof.
  intros Hf. revert n. induction l as [|b l IH]; intros n Hn; subst n; cbn.
  - reflexivity.
  - by rewrite Hf, IH.
Qed.

Lemma variance_update_of_nan (self : HestonProcess.t) (dt : R) (z : np.num) :
  HestonProcess.variance_update self dt np.nan z = np.nan.
Proof. reflexivity. Qed.

Lemma logprice_update_of_nan_variance (self : HestonProcess.t) (dt : R) (x z : np.num) :
  HestonProcess.logprice_update self dt x np.nan z = np.nan.
Proof. unfold HestonProcess.logprice_update. by destruct x. Qed.

Lemma logprice_update_of_nan_deviate (self : HestonProcess.t) (dt : R) (x v : np.num) :
  HestonProcess.logprice_update self dt x v np.nan = np.nan.
Proof.
  unfold HestonProcess.logprice_update.
  destruct x as [x|], v as [v|]; cbn; try reflexivity.
  by case_bool_decide.
Qed.

Lemma rows_inv_lengths (self : HestonProcess.t) (s0 v0 dt : R) (m n : nat)
    (z1 z2 : np.arr2) (st : HestonProcess.grids) (k : nat) :
  rows_inv self s0 v0 dt m n z1 z2 m st → (k ≤ m)%nat →
  length (variance_row self dt v0 n z1 k) = n
  ∧ length (logprice_row self dt v0 n z1 z2 k) = n.
Proof.
  intros ((_ & [_ Hxw] & [_ Hvw]) & _ & _ & Hv & Hx & _) Hk. split.
  - destruct k as [|k]; [apply length_replicate|].
    exact (Forall_lookup_1 _ _ _ _ Hvw (Hv (S k) ltac:(lia))).
  - exact (Forall_lookup_1 _ _ _ _ Hxw (Hx k Hk)).
Qed.

(** With [v0 * dt < 0] every variance row after row 0 is [nan]. *)
Lemma variance_row_nan (self : HestonProcess.t) (dt v0 : R) (m n : nat) (z1 : np.arr2)
    (k : nat) :
  shape z1 m n → v0 * dt < 0 → (1 ≤ k ≤ m)%nat →
  variance_row self dt v0 n z1 k = replicate n np.nan.
Proof.
  intros Hz1 Hneg. induction k as [|k IH]; intros Hk; [lia|].
  destruct (shape_lookup z1 m n k Hz1) as (zr & Hzr & Hlen); [lia|].
  cbn [variance_row]. rewrite Hzr. change (default [] (Some zr)) with zr.
  destruct k as [|k].
  - cbn [variance_row].
    rewrite (zip_with_const_l _ _ np.nan zr n
               (λ b, variance_update_nan self dt v0 b Hneg) Hlen).
    by rewrite fmap_replicate.
  - rewrite IH by lia.
    rewrite (zip_with_const_l _ _ np.nan zr n
               (variance_update_of_nan self dt) Hlen).
    by rewrite fmap_replicate.
Qed.

Section Heston_nan.
Context `{G : Generator}.

(** X10.  With [v0 * T < 0] (a negative [v0], or a negative horizon with a
    positive [v0]) the first update takes the square root of a negative
    number: [HestonProcess.simulate] raises nothing and returns a variance
    grid whose row 0 is the absolute value of [v0] and whose rows 1 to [m]
    are [nan] in every column, and a price matrix whose rows 2 to [m] are
    [nan]. *)
Theorem negative_variance_poisons (self : HestonProcess.t) (s0 v0 T : R) (n m : nat)
    (antithetic : bool) (seed : option Z) (g : rng) :
  seed_ok seed → (1 ≤ m)%nat → v0 * T < 0 →
  ∃ (s v : np.arr2) (g' : rng),
    HestonProcess.simulate self s0 v0 T n m true antithetic seed g
    = (Ok (HestonProcess.PricesAndVol s v), g')
    ∧ v !! 0%nat = Some (replicate n (np.real (Rabs v0)))
    ∧ (∀ k, (1 ≤ k ≤ m)%nat → v !! k = Some (replicate n np.nan))
    ∧ (∀ k, (2 ≤ k ≤ m)%nat → s !! k = Some (replicate n np.nan)).
Proof.
  intros Hseed Hm Hneg.
  assert (Hdt : v0 * (T / INR m) < 0).
  { assert (0 < INR m) by (apply lt_0_INR; lia).
    assert (0 < / INR m) by by apply Rinv_0_lt_compat.
    unfold Rdiv. nra. }
  destruct (noise_shape self n m antithetic (guarded_state seed g))
    as (z1 & z2 & g' & Hnoise & Hz1 & Hz2 & _).
  destruct (paths_rows self s0 v0 (T / INR m) z1 z2 m n Hz1 Hz2) as (st & Hpaths & Hinv).
  pose proof Hinv as (Hshape & Hs0 & Hv0 & Hv & Hx & Hs).
  exists (HestonProcess.s st), (HestonProcess.v st), g'.
  split; [exact (heston_run_noise self s0 v0 T n m true antithetic seed g g' z1 z2 st
                   Hseed Hm Hnoise Hpaths)|].
  split; [|split].
  - rewrite Hv0, decide_False by lia. cbn. by rewrite fmap_replicate.
  - intros k Hk. rewrite Hv by lia. f_equal. by apply (variance_row_nan _ _ _ m).
  - intros k Hk. rewrite Hs, Hx by lia. cbn [fmap option_fmap option_map]. f_equal.
    destruct k as [|k]; [lia|]. cbn [logprice_row].
    destruct (shape_lookup z2 m n k Hz2) as (zr & Hzr & Hlen); [lia|].
    rewrite Hzr. change (default [] (Some zr)) with zr.
    rewrite (variance_row_nan self _ v0 m n z1 k Hz1 Hdt) by lia.
    rewrite fmap_replicate. change (absn np.nan) with np.nan.
    destruct (rows_inv_lengths self s0 v0 _ m n z1 z2 st k Hinv) as [_ Hxl]; [lia|].
    assert (Hrow : zip_with
              (λ xv z, HestonProcess.logprice_update self (T / INR m) xv.1 xv.2 z)
              (zip (logprice_row self (T / INR m) v0 n z1 z2 k) (replicate n np.nan)) zr
            = replicate n np.nan).
    { revert Hxl Hlen. generalize (logprice_row self (T / INR m) v0 n z1 z2 k).
      clear. revert zr. induction n as [|n IH]; intros zr xr Hxl Hlen.
      - by destruct xr.
      - destruct xr as [|x xr], zr as [|z zr]; try discriminate. cbn.
        rewrite logprice_update_of_nan_variance. f_equal.
        apply IH; [by injection Hxl | by injection Hlen]. }
    rewrite Hrow. apply zip_with_absorb_r; [|apply length_replicate].
    by intros [a|].
Qed.

End Heston_nan.

(** ** Where [HestonProcess] returns numbers *)

Lemma Forall_zip_pairs (P Q : np.num → Prop) (l k : np.arr1) :
  Forall P l → Forall Q k → Forall (λ xv, P xv.1 ∧ Q xv.2) (zip l k).
Proof.
  intros Hl. revert k. induction Hl as [|a l Ha Hl IH]; intros k Hk; [constructor|].
  destruct Hk as [|b k Hb Hk]; cbn; constructor; [done | by apply IH].
Qed.

Lemma default_row_real (z : np.arr2) (i : nat) :
  Forall (Forall is_real) z → Forall is_real (default [] (z !! i)).
Proof.
  intros Hz. destruct (z !! i) as [r|] eqn:Hr; [|constructor].
  exact (Forall_lookup_1 _ _ _ _ Hz Hr).
Qed.

Lemma variance_row_nonneg (self : HestonProcess.t) (dt v0 : R) (n : nat) (z1 : np.arr2)
    (k : nat) :
  0 <= v0 → 0 <= dt → Forall (Forall is_real) z1 →
  Forall nonneg (variance_row self dt v0 n z1 k).
Proof.
  intros Hv0 Hdt Hz1. induction k as [|k IH]; cbn [variance_row].
  - apply Forall_replicate. by exists v0.
  - apply Forall_fmap.
    assert (Hrow : Forall is_real
              (zip_with (HestonProcess.variance_update self dt)
                 (variance_row self dt v0 n z1 k) (default [] (z1 !! k)))).
    { apply (Forall_zip_with_intro nonneg is_real);
        [|exact IH | by apply default_row_real].
      intros a b. by apply variance_update_real. }
    revert Hrow. apply Forall_impl, absn_real_nonneg.
Qed.

Lemma logprice_update_real (self : HestonProcess.t) (dt : R) (x v z : np.num) :
  0 <= dt → is_real x → nonneg v → is_real z →
  is_real (HestonProcess.logprice_update self dt x v z).
Proof.
  intros Hdt (a & ->) (b & -> & Hb) (c & ->).
  unfold HestonProcess.logprice_update. cbn.
  rewrite bool_decide_eq_false_2 by nra. by eexists.
Qed.

Lemma logprice_row_real (self : HestonProcess.t) (dt v0 : R) (n : nat) (z1 z2 : np.arr2)
    (k : nat) :
  0 <= v0 → 0 <= dt → Forall (Forall is_real) z1 → Forall (Forall is_real) z2 →
  Forall is_real (logprice_row self dt v0 n z1 z2 k).
Proof.
  intros Hv0 Hdt Hz1 Hz2. induction k as [|k IH]; cbn [logprice_row].
  - apply Forall_replicate. by exists 0.
  - apply (Forall_zip_with_intro (λ xv, is_real xv.1 ∧ nonneg xv.2) is_real);
      [| |by apply default_row_real].
    + intros [x v] z [Hx Hv] Hz. by apply logprice_update_real.
    + apply Forall_zip_pairs; [exact IH|].
      apply Forall_fmap. generalize (variance_row_nonneg self dt v0 n z1 k Hv0 Hdt Hz1).
      apply Forall_impl. intros e He. by apply absn_real_nonneg, nonneg_is_real.
Qed.

Section Heston_numbers.
Context `{G : Generator}.

(** With a correlation between -1 and 1 the two noise grids hold numbers
    only; beyond, the second grid is [nan] everywhere. *)
Lemma noise_real_or_nan (self : HestonProcess.t) (n m : nat) (antithetic : bool)
    (g : rng) :
  ∃ (z1 z2 : np.arr2) (g' : rng),
    HestonProcess.noise self n m antithetic g = (Ok (z1, z2), g')
    ∧ shape z1 m n ∧ shape z2 m n ∧ Forall (Forall is_real) z1
    ∧ (0 <= 1 - HestonProcess.rho self ^ 2 → Forall (Forall is_real) z2)
    ∧ (1 - HestonProcess.rho self ^ 2 < 0 →
       Forall (Forall (λ e, e = np.nan)) z2).
Proof.
  destruct (random_randn_ok m n g) as (e1 & g1 & He1 & Hs1 & Hr1).
  destruct (random_randn_ok m n g1) as (e2 & g' & He2 & Hs2 & Hr2).
  eexists _, _, g'. split.
  { unfold HestonProcess.noise.
    rewrite (bind_ok _ _ _ _ _ He1), (bind_ok _ _ _ _ _ He2). reflexivity. }
  split; [by apply shape_fmap|]. split; [by apply shape_fmap, shape_zip_with|].
  split; [|split].
  - revert Hr1. apply Forall2d_elementwise. intros e. apply mul_real_is_real.
  - intros Hrho. apply (Forall2d_elementwise is_real); [intros e; apply mul_real_is_real|].
    apply (Forall2d_zip_with is_real is_real); [|done..].
    intros a b (x & ->) (y & ->). cbn.
    rewrite bool_decide_eq_false_2 by (cbn in Hrho; lra). by eexists.
  - intros Hrho. apply (Forall2d_elementwise (λ e, e = np.nan)); [by intros e ->|].
    apply (Forall2d_zip_with is_real is_real); [|done..].
    intros a b (x & ->) (y & ->). cbn.
    by rewrite bool_decide_eq_true_2 by (cbn in Hrho; lra).
Qed.

(** X11.  With [s0 > 0], [v0 >= 0], [T >= 0] and a correlation between -1
    and 1 (and at least one step), every entry of the price matrix
    [HestonProcess.simulate] returns is a number above zero, whatever [mu],
    [kappa], [theta], [eta], the flags and the deviates drawn. *)
Theorem heston_prices_positive (self : HestonProcess.t) (s0 v0 T : R) (n m : nat)
    (antithetic : bool) (seed : option Z) (g : rng) :
  seed_ok seed → (1 ≤ m)%nat → 0 < s0 → 0 <= v0 → 0 <= T →
  -1 <= HestonProcess.rho self <= 1 →
  ∃ (s v : np.arr2) (g' : rng),
    HestonProcess.simulate self s0 v0 T n m true antithetic seed g
    = (Ok (HestonProcess.PricesAndVol s v), g')
    ∧ Forall (Forall positive) s.
Proof.
  intros Hseed Hm Hs0 Hv0 HT Hrho.
  pose proof (dt_nonneg T m HT Hm) as Hdt.
  destruct (noise_real_or_nan self n m antithetic (guarded_state seed g))
    as (z1 & z2 & g' & Hnoise & Hz1 & Hz2 & Hr1 & Hr2 & _).
  assert (Hreal2 : Forall (Forall is_real) z2) by (apply Hr2; nra).
  destruct (paths_rows self s0 v0 (T / INR m) z1 z2 m n Hz1 Hz2)
    as (st & Hpaths & Hshape & Hsrow0 & _ & _ & Hx & Hs).
  exists (HestonProcess.s st), (HestonProcess.v st), g'.
  split; [exact (heston_run_noise self s0 v0 T n m true antithetic seed g g' z1 z2 st
                   Hseed Hm Hnoise Hpaths)|].
  apply Forall_lookup_2. intros k r Hr.
  assert (Hk : (k < m + 1)%nat).
  { destruct Hshape as ([Hl _] & _). rewrite <- Hl. by eapply lookup_lt_Some. }
  destruct k as [|k].
  - rewrite Hsrow0 in Hr. injection Hr as <-. apply Forall_replicate. by exists s0.
  - rewrite Hs, Hx in Hr by lia. injection Hr as <-.
    apply (Forall_zip_with_intro (λ a, a = np.real s0) is_real).
    + intros a e -> (x & ->). eexists. split; [reflexivity|].
      apply Rmult_lt_0_compat; [exact Hs0 | apply exp_pos].
    + by apply Forall_replicate.
    + exact (logprice_row_real self _ v0 n z1 z2 (S k) Hv0 Hdt Hr1 Hreal2).
Qed.

(** X12.  With a correlation of absolute value above 1,
    [np.sqrt(1 - rho**2)] is [nan]: [HestonProcess.simulate] raises nothing
    and returns a price matrix whose row 0 is [s0] and whose rows 1 to [m]
    are [nan] in every column. *)
Theorem correlation_out_of_range (self : HestonProcess.t) (s0 v0 T : R) (n m : nat)
    (antithetic : bool) (seed : option Z) (g : rng) :
  seed_ok seed → (1 ≤ m)%nat → 1 < HestonProcess.rho self ^ 2 →
  ∃ (s v : np.arr2) (g' : rng),
    HestonProcess.simulate self s0 v0 T n m true antithetic seed g
    = (Ok (HestonProcess.PricesAndVol s v), g')
    ∧ s !! 0%nat = Some (replicate n (np.real s0))
    ∧ ∀ k, (1 ≤ k ≤ m)%nat → s !! k = Some (replicate n np.nan).
Proof.
  intros Hseed Hm Hrho.
  destruct (noise_real_or_nan self n m antithetic (guarded_state seed g))
    as (z1 & z2 & g' & Hnoise & Hz1 & Hz2 & _ & _ & Hnan).
  specialize (Hnan ltac:(lra)).
  destruct (paths_rows self s0 v0 (T / INR m) z1 z2 m n Hz1 Hz2) as (st & Hpaths & Hinv).
  pose proof Hinv as (Hshape & Hsrow0 & _ & _ & Hx & Hs).
  exists (HestonProcess.s st), (HestonProcess.v st), g'.
  split; [exact (heston_run_noise self s0 v0 T n m true antithetic seed g g' z1 z2 st
                   Hseed Hm Hnoise Hpaths)|].
  split; [exact Hsrow0|].
  intros k Hk. rewrite Hs, Hx by lia. cbn [fmap option_fmap option_map]. f_equal.
  destruct k as [|k]; [lia|]. cbn [logprice_row].
  destruct (shape_lookup z2 m n k Hz2) as (zr & Hzr & Hlen); [lia|].
  rewrite Hzr. change (default [] (Some zr)) with zr.
  assert (Hzr_nan : zr = replicate n np.nan).
  { pose proof (Forall_lookup_1 _ _ _ _ Hnan Hzr) as Hall. subst n.
    clear -Hall. induction Hall as [|e zr -> _ IH]; cbn; [reflexivity | by f_equal]. }
  subst zr.
  destruct (rows_inv_lengths self s0 v0 _ m n z1 z2 st k Hinv) as [Hvl Hxl]; [lia|].
  rewrite zip_with_absorb_r.
  - apply zip_with_absorb_r; [by intros [a|] | apply length_replicate].
  - intros [x v]. apply logprice_update_of_nan_deviate.
  - rewrite length_zip, length_fmap, Hvl, Hxl. lia.
Qed.

End Heston_numbers.

(** ** Degenerate calls of [GeometricBrownianMotion] *)

(** The time of row [k] of the grid. *)
Lemma linspace_time (T : R) (m k : nat) :
  (1 ≤ m)%nat → (k ≤ m)%nat →
  np.linspace 0 T (m + 1) !! k = Some (np.real (INR k * T / INR m)).
Proof.
  intros Hm Hk. unfold np.linspace.
  assert (HINR : INR m ≠ 0) by (apply not_0_INR; lia).
  destruct (decide (1 < m + 1)%nat) as [_|Hn]; [|lia].
  replace (m + 1 - 1)%nat with m by lia.
  destruct (decide (k = m)) as [->|Hne].
  - rewrite list_lookup_insert_eq by (rewrite length_fmap, length_seq; lia).
    do 2 f_equal. by field.
  - rewrite list_lookup_insert_ne by lia.
    rewrite list_lookup_fmap, lookup_seq_lt by lia. cbn. do 2 f_equal. by field.
Qed.

Lemma cumsum_from_zero (acc : np.arr1) (a : np.arr2) :
  Forall (λ e, e = np.real 0) acc → Forall (Forall (λ e, e = np.real 0)) a →
  Forall (Forall (λ e, e = np.real 0)) (np.cumsum_from acc a).
Proof.
  intros Hacc Ha. revert acc Hacc.
  induction Ha as [|r a Hr Ha IH]; intros acc Hacc; cbn; [constructor|].
  assert (Hsum : Forall (λ e, e = np.real 0) (zip_with np.add acc r)).
  { apply (Forall_zip_with_intro (λ e, e = np.real 0) (λ e, e = np.real 0)); [|done..].
    intros x y -> ->. cbn. unfold np.real. f_equal. lra. }
  constructor; [exact Hsum | by apply IH].
Qed.

Section GBM_degenerate.
Context `{G : Generator}.

(** X13.  With [sigma = 0] and [T >= 0] (and at least one step) the matrix
    [GeometricBrownianMotion.simulate] returns does not depend on the
    deviates: the entry of row [k] is [s0 * exp(mu * k*T/m)] in every
    column. *)
Theorem gbm_zero_volatility (self : GeometricBrownianMotion.t) (s0 T : R) (n m : nat)
    (v0 : option R) (antithetic : bool) (seed : option Z) (g : rng) :
  seed_ok seed → (1 ≤ m)%nat → 0 <= T → GeometricBrownianMotion.sigma self = 0 →
  ∃ (s : np.arr2) (g' : rng),
    GeometricBrownianMotion.simulate self s0 T n m v0 antithetic seed g = (Ok s, g')
    ∧ ∀ k j, (k ≤ m)%nat → (j < n)%nat →
        entry s k j
        = Some (np.real (s0 * exp (GeometricBrownianMotion.mu self * (INR k * T / INR m)))).
Proof.
  intros Hseed Hm HT Hsigma.
  destruct (brownian_real T n m seed g Hseed Hm HT) as (C & g' & HC & Hreal & Hrun).
  eexists _, g'. split.
  - unfold GeometricBrownianMotion.simulate.
    rewrite (bind_ok _ _ _ _ _ (Hrun antithetic)). reflexivity.
  - intros k j Hk Hj.
    destruct (signed_path_entry C n m k j HC Hreal Hk Hj) as [x Hx].
    rewrite (prices_entry self s0 T n m _ k j _ _ (linspace_time T m k Hm Hk)
               (Hx (if antithetic then -1 else 1)) Hj).
    cbn. rewrite Hsigma. do 4 f_equal. ring.
Qed.

(** X14.  With [T = 0] (and at least one step) every entry of the matrix
    [GeometricBrownianMotion.simulate] returns is [s0], whatever [mu],
    [sigma] and the deviates drawn. *)
Theorem gbm_zero_horizon (self : GeometricBrownianMotion.t) (s0 : R) (n m : nat)
    (v0 : option R) (antithetic : bool) (seed : option Z) (g : rng) :
  seed_ok seed → (1 ≤ m)%nat →
  ∃ (s : np.arr2) (g' : rng),
    GeometricBrownianMotion.simulate self s0 0 n m v0 antithetic seed g = (Ok s, g')
    ∧ shape s (m + 1) n
    ∧ Forall (Forall (λ e, e = np.real s0)) s.
Proof.
  intros Hseed Hm.
  destruct (random_randn_ok (m + 1) n (guarded_state seed g)) as (z & g' & Hz & Hshape & Hreal).
  pose proof (brownian_explicit 0 n m antithetic seed g g' z Hseed Hm Hz) as Hrun.
  assert (Hdt : 0 / INR m = 0) by (unfold Rdiv; apply Rmult_0_l).
  rewrite Hdt in Hrun.
  set (E := np.elementwise (np.mul (np.sqrt (np.real 0))) z) in Hrun.
  assert (HE : Forall (Forall (λ e, e = np.real 0)) E).
  { revert Hreal. apply Forall2d_elementwise. intros e (x & ->). cbn.
    rewrite bool_decide_eq_false_2 by lra. rewrite sqrt_0. cbn.
    unfold np.real. f_equal. lra. }
  assert (HC : Forall (Forall (λ e, e = np.real 0)) (np.cumsum E)).
  { destruct E as [|r E']; [constructor|]. apply Forall_cons_1 in HE as [Hr HE]. cbn.
    constructor; [exact Hr | by apply cumsum_from_zero]. }
  eexists _, g'. split; [|split].
  - unfold GeometricBrownianMotion.simulate.
    rewrite (bind_ok _ _ _ _ _ Hrun). reflexivity.
  - apply prices_shape. split.
    + cbn. rewrite length_fmap, length_drop.
      destruct (shape_cumsum E (m + 1) n) as [-> _]; [by apply shape_fmap | lia].
    + constructor; [apply length_replicate|].
      apply Forall_fmap.
      destruct (shape_cumsum E (m + 1) n) as [_ Hw]; [by apply shape_fmap|].
      apply (Forall_drop _ 1) in Hw. revert Hw. apply Forall_impl.
      intros r Hr. cbn. by rewrite length_fmap.
  - unfold GeometricBrownianMotion.prices.
    apply (Forall2d_zip_with (λ e, e = np.real 0) (λ e, e = np.real 0)).
    + intros t w -> ->. cbn. unfold np.real. f_equal.
      replace (_ * 0 + _ * 0) with 0 by lra. rewrite exp_0. lra.
    + apply Forall_fmap, Forall_lookup_2. intros k t Hk. cbn.
      apply Forall_fmap, Forall_replicate. cbn.
      assert (Hkm : (k ≤ m)%nat).
      { apply lookup_lt_Some in Hk. rewrite linspace_length in Hk. lia. }
      rewrite (linspace_time 0 m k Hm Hkm) in Hk. injection Hk as <-.
      cbn. unfold np.real. f_equal. unfold Rdiv. ring.
    + constructor; [by apply Forall_replicate|].
      apply (Forall_drop _ 1) in HC. revert HC.
      apply Forall2d_elementwise. intros e ->. cbn. unfold np.real. f_equal. lra.
Qed.

End GBM_degenerate.

(** ** A zero horizon in [HestonProcess] *)

Lemma zip_with_replicate_on {A B C} (f : A → B → C) (a : A) (c : C) (P : B → Prop)
    (l : list B) (n : nat) :
  (∀ b, P b → f a b = c) → Forall P l → length l = n →
  zip_with f (replicate n a) l = replicate n c.
Proof.
  intros Hf Hl. revert n. induction Hl as [|b l Hb Hl IH]; intros n Hn; subst n; cbn.
  - reflexivity.
  - by rewrite Hf, IH.
Qed.

Lemma zip_replicate_pairs {A B} (a : A) (b : B) (n : nat) :
  zip (replicate n a) (replicate n b) = replicate n (a, b).
Proof. induction n as [|n IH]; cbn; [reflexivity | by rewrite IH]. Qed.

Lemma variance_update_zero_dt (self : HestonProcess.t) (a : R) (z : np.num) :
  is_real z → HestonProcess.variance_update self 0 (np.real a) z = np.real a.
Proof.
  intros (y & ->). unfold HestonProcess.variance_update. cbn.
  rewrite Rmult_0_r, bool_decide_eq_false_2 by lra. rewrite sqrt_0.
  destruct (HestonProcess.milstein self); cbn; unfold np.real; f_equal; ring.
Qed.

Lemma logprice_update_zero_dt (self : HestonProcess.t) (b : R) (z : np.num) :
  is_real z →
  HestonProcess.logprice_update self 0 (np.real 0) (np.real b) z = np.real 0.
Proof.
  intros (y & ->). unfold HestonProcess.logprice_update. cbn.
  rewrite Rmult_0_r, bool_decide_eq_false_2 by lra. rewrite sqrt_0.
  cbn. unfold np.real. f_equal. ring.
Qed.

Lemma variance_row_zero_dt (self : HestonProcess.t) (v0 : R) (m n : nat) (z1 : np.arr2)
    (k : nat) :
  shape z1 m n → Forall (Forall is_real) z1 → (k ≤ m)%nat →
  absn <$> variance_row self 0 v0 n z1 k = replicate n (np.real (Rabs v0)).
Proof.
  intros Hz1 Hreal. induction k as [|k IH]; intros Hk; cbn [variance_row].
  - by rewrite fmap_replicate.
  - destruct (shape_lookup z1 m n k Hz1) as (zr & Hzr & Hlen); [lia|].
    rewrite Hzr. change (default [] (Some zr)) with zr.
    pose proof (Forall_lookup_1 _ _ _ _ Hreal Hzr) as Hzreal.
    destruct k as [|k].
    + cbn [variance_row].
      rewrite (zip_with_replicate_on _ _ (np.real v0) is_real zr n
                 (variance_update_zero_dt self v0) Hzreal Hlen).
      rewrite !fmap_replicate. cbn. by rewrite Rabs_Rabsolu.
    + specialize (IH ltac:(lia)). rewrite variance_row_folded in IH by lia.
      rewrite IH.
      rewrite (zip_with_replicate_on _ _ (np.real (Rabs v0)) is_real zr n
                 (variance_update_zero_dt self (Rabs v0)) Hzreal Hlen).
      rewrite !fmap_replicate. cbn. by rewrite !Rabs_Rabsolu.
Qed.

Lemma logprice_row_zero_dt (self : HestonProcess.t) (v0 : R) (m n : nat)
    (z1 z2 : np.arr2) (k : nat) :
  shape z1 m n → Forall (Forall is_real) z1 →
  shape z2 m n → Forall (Forall is_real) z2 → (k ≤ m)%nat →
  logprice_row self 0 v0 n z1 z2 k = replicate n (np.real 0).
Proof.
  intros Hz1 Hr1 Hz2 Hr2. induction k as [|k IH]; intros Hk; cbn [logprice_row].
  - reflexivity.
  - destruct (shape_lookup z2 m n k Hz2) as (zr & Hzr & Hlen); [lia|].
    rewrite Hzr. change (default [] (Some zr)) with zr.
    rewrite IH, (variance_row_zero_dt self v0 m n z1 k Hz1 Hr1) by lia.
    rewrite zip_replicate_pairs.
    apply (zip_with_replicate_on _ _ _ is_real); [|exact (Forall_lookup_1 _ _ _ _ Hr2 Hzr)|done].
    intros z Hz. by apply logprice_update_zero_dt.
Qed.

Section Heston_zero_horizon.
Context `{G : Generator}.

(** X15.  With [T = 0], a correlation between -1 and 1 and at least one
    step, [HestonProcess.simulate] returns a price matrix whose every entry
    is [s0] and a variance matrix whose every entry is the absolute value of
    [v0], whatever the other parameters and the deviates drawn. *)
Theorem heston_zero_horizon (self : HestonProcess.t) (s0 v0 : R) (n m : nat)
    (antithetic : bool) (seed : option Z) (g : rng) :
  seed_ok seed → (1 ≤ m)%nat → -1 <= HestonProcess.rho self <= 1 →
  ∃ g' : rng,
    HestonProcess.simulate self s0 v0 0 n m true antithetic seed g
    = (Ok (HestonProcess.PricesAndVol
             (replicate (m + 1) (replicate n (np.real s0)))
             (replicate (m + 1) (replicate n (np.real (Rabs v0))))), g').
Proof.
  intros Hseed Hm Hrho.
  destruct (noise_real_or_nan self n m antithetic (guarded_state seed g))
    as (z1 & z2 & g' & Hnoise & Hz1 & Hz2 & Hr1 & Hr2 & _).
  assert (Hreal2 : Forall (Forall is_real) z2) by (apply Hr2; nra).
  destruct (paths_rows self s0 v0 (0 / INR m) z1 z2 m n Hz1 Hz2) as (st & Hpaths & Hinv).
  pose proof (heston_run_noise self s0 v0 0 n m true antithetic seed g g' z1 z2 st
                Hseed Hm Hnoise Hpaths) as Hrun.
  assert (Hdt : 0 / INR m = 0) by (unfold Rdiv; apply Rmult_0_l).
  rewrite Hdt in Hinv.
  destruct Hinv as (((Hsl & _) & _ & (Hvl & _)) & Hsrow0 & Hv0 & Hv & Hx & Hs).
  exists g'. rewrite Hrun. cbn [negb]. do 3 f_equal.
  - apply list_eq. intros k. destruct (decide (k ≤ m)%nat) as [Hk|Hk].
    + rewrite lookup_replicate_2 by lia. destruct k as [|k]; [exact Hsrow0|].
      rewrite Hs, Hx by lia. cbn [fmap option_fmap option_map].
      rewrite (logprice_row_zero_dt self v0 m n z1 z2 (S k)) by (done || lia).
      f_equal. apply (zip_with_replicate_on _ _ _ (λ e, e = np.real 0));
        [|by apply Forall_replicate | apply length_replicate].
      intros e ->. cbn. unfold np.real. f_equal. rewrite exp_0. lra.
    + rewrite lookup_ge_None_2 by lia.
      symmetry. apply lookup_ge_None_2. rewrite length_replicate. lia.
  - apply list_eq. intros k. destruct (decide (k ≤ m)%nat) as [Hk|Hk].
    + rewrite lookup_replicate_2 by lia. destruct k as [|k].
      * rewrite Hv0, decide_False by lia. cbn. by rewrite fmap_replicate.
      * rewrite Hv by lia. rewrite <- variance_row_folded by lia.
        by rewrite (variance_row_zero_dt self v0 m n z1 (S k)) by (done || lia).
    + rewrite lookup_ge_None_2 by lia.
      symmetry. apply lookup_ge_None_2. rewrite length_replicate. lia.
Qed.

End Heston_zero_horizon.

(** ** The further properties at concrete calls *)

Lemma zero_steps_raise_witness :
  seed_ok (Some 42%Z)
  ∧ GeometricBrownianMotion.simulate (G := counter) gbm_example 100 1 1 0 None
      false (Some 42%Z) 0%Z = (Raise ZeroDivisionError, 42%Z)
  ∧ HestonProcess.simulate (G := counter) heston_example 100 0.04 1 1 0 true
      false (Some 42%Z) 0%Z = (Raise ZeroDivisionError, 42%Z).
Proof.
  assert (Hseed : seed_ok (Some 42%Z)) by (cbn; lia).
  split; [assumption|].
  exact (zero_steps_raise (G := counter) gbm_example heston_example 100 0.04 1 1 None
           true false (Some 42%Z) 0%Z Hseed).
Defined.

Lemma refused_seed_raises_witness :
  (-1)%Z ≠ 0%Z ∧ ¬ (0 ≤ -1 ≤ 2 ^ 32 - 1)%Z
  ∧ GeometricBrownianMotion.simulate (G := counter) gbm_example 100 1 1 5 None
      false (Some (-1)%Z) 5%Z = (Raise ValueError, 5%Z)
  ∧ HestonProcess.simulate (G := counter) heston_example 100 0.04 1 1 5 true
      false (Some (-1)%Z) 5%Z = (Raise ValueError, 5%Z).
Proof.
  assert (Hnz : (-1)%Z ≠ 0%Z) by lia.
  assert (Hbad : ¬ (0 ≤ -1 ≤ 2 ^ 32 - 1)%Z) by lia.
  do 2 (split; [assumption|]).
  exact (refused_seed_raises (G := counter) gbm_example heston_example 100 0.04 1 1 5
           None true false (-1)%Z 5%Z Hnz Hbad).
Defined.

Lemma draws_consumed_witness :
  seed_ok (Some 42%Z) ∧ (1 ≤ 5)%nat
  ∧ (∃ s : np.arr2,
       GeometricBrownianMotion.simulate (G := counter) gbm_example 100 1 3 5 None
         false (Some 42%Z) 0%Z
       = (Ok s, advance (G := counter) ((5 + 1) * 3) 42%Z))
  ∧ (∃ out : HestonProcess.output,
       HestonProcess.simulate (G := counter) heston_example 100 0.04 1 3 5 true
         false (Some 42%Z) 0%Z
       = (Ok out, advance (G := counter) (2 * (5 * 3)) 42%Z)).
Proof.
  assert (Hseed : seed_ok (Some 42%Z)) by (cbn; lia).
  assert (Hm : (1 ≤ 5)%nat) by lia.
  do 2 (split; [assumption|]).
  exact (draws_consumed (G := counter) gbm_example heston_example 100 0.04 1 3 5
           None true false (Some 42%Z) 0%Z Hseed Hm).
Defined.

Lemma brownian_increments_witness :
  seed_ok (Some 42%Z) ∧ (1 ≤ 2)%nat
  ∧ ∃ (z W : np.arr2) (g' : Z),
      random_randn (G := counter) (2 + 1) 1 42%Z = (Ok z, g')
      ∧ GeometricBrownianMotion.brownian (G := counter) 1 1 2 false (Some 42%Z) 0%Z
        = (Ok W, g')
      ∧ (∀ (j : nat) (a b : np.num),
           entry z 0 j = Some a → entry z 1 j = Some b →
           entry W 1 j
           = Some ($1 * (np.sqrt $(1 / INR 2) * a + np.sqrt $(1 / INR 2) * b))%np)
      ∧ (∀ (k j : nat) (w c : np.num),
           (1 ≤ k)%nat → entry W k j = Some w → entry z (k + 1) j = Some c →
           entry W (k + 1) j = Some (w + $1 * (np.sqrt $(1 / INR 2) * c))%np).
Proof.
  assert (Hseed : seed_ok (Some 42%Z)) by (cbn; lia).
  assert (Hm : (1 ≤ 2)%nat) by lia.
  do 2 (split; [assumption|]).
  exact (brownian_increments (G := counter) 1 1 2 false (Some 42%Z) 0%Z Hseed Hm).
Defined.

Lemma gbm_prices_positive_witness :
  seed_ok (Some 42%Z) ∧ (1 ≤ 5)%nat ∧ 0 < 100 ∧ 0 <= 1
  ∧ ∃ (s : np.arr2) (g' : Z),
      GeometricBrownianMotion.simulate (G := counter) gbm_example 100 1 3 5 None
        false (Some 42%Z) 0%Z = (Ok s, g')
      ∧ Forall (Forall positive) s.
Proof.
  assert (Hseed : seed_ok (Some 42%Z)) by (cbn; lia).
  assert (Hm : (1 ≤ 5)%nat) by lia.
  assert (Hs0 : 0 < 100) by lra.
  assert (HT : 0 <= 1) by lra.
  do 4 (split; [assumption|]).
  exact (gbm_prices_positive (G := counter) gbm_example 100 1 3 5 None false
           (Some 42%Z) 0%Z Hseed Hm Hs0 HT).
Defined.

Lemma gbm_negative_horizon_witness :
  seed_ok (Some 42%Z) ∧ (1 ≤ 5)%nat ∧ -1 < 0
  ∧ ∃ (s : np.arr2) (g' : Z),
      GeometricBrownianMotion.simulate (G := counter) gbm_example 100 (-1) 3 5 None
        false (Some 42%Z) 0%Z = (Ok s, g')
      ∧ s !! 0%nat = Some (replicate 3 (np.real 100))
      ∧ ∀ k, (1 ≤ k ≤ 5)%nat → s !! k = Some (replicate 3 np.nan).
Proof.
  assert (Hseed : seed_ok (Some 42%Z)) by (cbn; lia).
  assert (Hm : (1 ≤ 5)%nat) by lia.
  assert (HT : -1 < 0) by lra.
  do 3 (split; [assumption|]).
  exact (gbm_negative_horizon (G := counter) gbm_example 100 (-1) 3 5 None false
           (Some 42%Z) 0%Z Hseed Hm HT).
Defined.

Lemma antithetic_prices_product_witness :
  42%Z ≠ 0%Z ∧ (0 ≤ 42 ≤ 2 ^ 32 - 1)%Z ∧ (1 ≤ 5)%nat ∧ 0 <= 1
  ∧ ∃ (s s' : np.arr2) (g' : Z),
      GeometricBrownianMotion.simulate (G := counter) gbm_example 100 1 3 5 None
        false (Some 42%Z) 0%Z = (Ok s, g')
      ∧ GeometricBrownianMotion.simulate (G := counter) gbm_example 100 1 3 5 None
          true (Some 42%Z) 7%Z = (Ok s', g')
      ∧ ∀ k j, (k ≤ 5)%nat → (j < 3)%nat →
          ∃ a b t : R,
            entry s k j = Some (np.real a) ∧ entry s' k j = Some (np.real b)
            ∧ np.linspace 0 1 (5 + 1) !! k = Some (np.real t)
            ∧ a * b
              = 100 ^ 2 * exp (2 * (GeometricBrownianMotion.mu gbm_example
                                     - 0.5 * GeometricBrownianMotion.sigma gbm_example ^ 2)
                               * t).
Proof.
  assert (Hnz : 42%Z ≠ 0%Z) by lia.
  assert (Hrange : (0 ≤ 42 ≤ 2 ^ 32 - 1)%Z) by lia.
  assert (Hm : (1 ≤ 5)%nat) by lia.
  assert (HT : 0 <= 1) by lra.
  do 4 (split; [assumption|]).
  exact (antithetic_prices_product (G := counter) gbm_example 100 1 3 5 None
           42%Z 0%Z 7%Z Hnz Hrange Hm HT).
Defined.

Lemma variance_grid_recursion_witness :
  seed_ok (Some 7%Z) ∧ (1 ≤ 5)%nat
  ∧ ∃ (z1 z2 s v : np.arr2) (g' : Z),
      HestonProcess.noise (G := counter) heston_example 1 5 false 7%Z = (Ok (z1, z2), g')
      ∧ HestonProcess.simulate (G := counter) heston_example 100 0.04 1 1 5 true
          false (Some 7%Z) 0%Z = (Ok (HestonProcess.PricesAndVol s v), g')
      ∧ v !! 0%nat = Some (replicate 1 (np.real (Rabs 0.04)))
      ∧ (∀ zr, z1 !! 0%nat = Some zr →
           v !! 1%nat
           = Some (absn <$> zip_with (HestonProcess.variance_update heston_example
                                        (1 / INR 5))
                              (replicate 1 (np.real 0.04)) zr))
      ∧ (∀ (i : nat) (r zr : np.arr1),
           (1 ≤ i < 5)%nat → v !! i = Some r → z1 !! i = Some zr →
           v !! (i + 1)%nat
           = Some (absn <$> zip_with (HestonProcess.variance_update heston_example
                                        (1 / INR 5)) r zr)).
Proof.
  assert (Hseed : seed_ok (Some 7%Z)) by (cbn; lia).
  assert (Hm : (1 ≤ 5)%nat) by lia.
  do 2 (split; [assumption|]).
  exact (variance_grid_recursion (G := counter) heston_example 100 0.04 1 1 5 false
           (Some 7%Z) 0%Z Hseed Hm).
Defined.

Lemma prices_from_logprices_witness :
  seed_ok (Some 7%Z) ∧ (1 ≤ 5)%nat
  ∧ ∃ (z1 z2 s v x : np.arr2) (g' : Z),
      HestonProcess.noise (G := counter) heston_example 1 5 false 7%Z = (Ok (z1, z2), g')
      ∧ HestonProcess.simulate (G := counter) heston_example 100 0.04 1 1 5 true
          false (Some 7%Z) 0%Z = (Ok (HestonProcess.PricesAndVol s v), g')
      ∧ shape x (5 + 1) 1
      ∧ x !! 0%nat = Some (replicate 1 (np.real 0))
      ∧ (∀ (i : nat) (xr vr zr : np.arr1),
           (i < 5)%nat → x !! i = Some xr → v !! i = Some vr → z2 !! i = Some zr →
           x !! (i + 1)%nat
           = Some (zip_with
                     (λ xv z, HestonProcess.logprice_update heston_example (1 / INR 5)
                                xv.1 xv.2 z)
                     (zip xr vr) zr))
      ∧ s !! 0%nat = Some (replicate 1 (np.real 100))
      ∧ (∀ k, (1 ≤ k ≤ 5)%nat →
           s !! k
           = zip_with (λ a e, a * np.exp e)%np (replicate 1 (np.real 100)) <$> x !! k).
Proof.
  assert (Hseed : seed_ok (Some 7%Z)) by (cbn; lia).
  assert (Hm : (1 ≤ 5)%nat) by lia.
  do 2 (split; [assumption|]).
  exact (prices_from_logprices (G := counter) heston_example 100 0.04 1 1 5 false
           (Some 7%Z) 0%Z Hseed Hm).
Defined.

Lemma negative_variance_poisons_witness :
  seed_ok (Some 7%Z) ∧ (1 ≤ 5)%nat ∧ -0.04 * 1 < 0
  ∧ ∃ (s v : np.arr2) (g' : Z),
      HestonProcess.simulate (G := counter) heston_example 100 (-0.04) 1 1 5 true
        false (Some 7%Z) 0%Z = (Ok (HestonProcess.PricesAndVol s v), g')
      ∧ v !! 0%nat = Some (replicate 1 (np.real (Rabs (-0.04))))
      ∧ (∀ k, (1 ≤ k ≤ 5)%nat → v !! k = Some (replicate 1 np.nan))
      ∧ (∀ k, (2 ≤ k ≤ 5)%nat → s !! k = Some (replicate 1 np.nan)).
Proof.
  assert (Hseed : seed_ok (Some 7%Z)) by (cbn; lia).
  assert (Hm : (1 ≤ 5)%nat) by lia.
  assert (Hneg : -0.04 * 1 < 0) by lra.
  do 3 (split; [assumption|]).
  exact (negative_variance_poisons (G := counter) heston_example 100 (-0.04) 1 1 5
           false (Some 7%Z) 0%Z Hseed Hm Hneg).
Defined.

Lemma heston_prices_positive_witness :
  seed_ok (Some 7%Z) ∧ (1 ≤ 5)%nat ∧ 0 < 100 ∧ 0 <= 0.04 ∧ 0 <= 1
  ∧ -1 <= HestonProcess.rho heston_example <= 1
  ∧ ∃ (s v : np.arr2) (g' : Z),
      HestonProcess.simulate (G := counter) heston_example 100 0.04 1 1 5 true
        false (Some 7%Z) 0%Z = (Ok (HestonProcess.PricesAndVol s v), g')
      ∧ Forall (Forall positive) s.
Proof.
  assert (Hseed : seed_ok (Some 7%Z)) by (cbn; lia).
  assert (Hm : (1 ≤ 5)%nat) by lia.
  assert (Hs0 : 0 < 100) by lra.
  assert (Hv0 : 0 <= 0.04) by lra.
  assert (HT : 0 <= 1) by lra.
  assert (Hrho : -1 <= HestonProcess.rho heston_example <= 1) by (cbn; lra).
  do 6 (split; [assumption|]).
  exact (heston_prices_positive (G := counter) heston_example 100 0.04 1 1 5 false
           (Some 7%Z) 0%Z Hseed Hm Hs0 Hv0 HT Hrho).
Defined.

Lemma correlation_out_of_range_witness :
  seed_ok (Some 7%Z) ∧ (1 ≤ 5)%nat ∧ 1 < HestonProcess.rho heston_overcorrelated ^ 2
  ∧ ∃ (s v : np.arr2) (g' : Z),
      HestonProcess.simulate (G := counter) heston_overcorrelated 100 0.04 1 1 5 true
        false (Some 7%Z) 0%Z = (Ok (HestonProcess.PricesAndVol s v), g')
      ∧ s !! 0%nat = Some (replicate 1 (np.real 100))
      ∧ ∀ k, (1 ≤ k ≤ 5)%nat → s !! k = Some (replicate 1 np.nan).
Proof.
  assert (Hseed : seed_ok (Some 7%Z)) by (cbn; lia).
  assert (Hm : (1 ≤ 5)%nat) by lia.
  assert (Hrho : 1 < HestonProcess.rho heston_overcorrelated ^ 2) by (cbn; lra).
  do 3 (split; [assumption|]).
  exact (correlation_out_of_range (G := counter) heston_overcorrelated 100 0.04 1 1 5
           false (Some 7%Z) 0%Z Hseed Hm Hrho).
Defined.

Lemma gbm_zero_volatility_witness :
  seed_ok (Some 42%Z) ∧ (1 ≤ 5)%nat ∧ 0 <= 1
  ∧ GeometricBrownianMotion.sigma gbm_flat = 0
  ∧ ∃ (s : np.arr2) (g' : Z),
      GeometricBrownianMotion.simulate (G := counter) gbm_flat 100 1 3 5 None
        false (Some 42%Z) 0%Z = (Ok s, g')
      ∧ ∀ k j, (k ≤ 5)%nat → (j < 3)%nat →
          entry s k j
          = Some (np.real (100 * exp (GeometricBrownianMotion.mu gbm_flat
                                      * (INR k * 1 / INR 5)))).
Proof.
  assert (Hseed : seed_ok (Some 42%Z)) by (cbn; lia).
  assert (Hm : (1 ≤ 5)%nat) by lia.
  assert (HT : 0 <= 1) by lra.
  assert (Hsigma : GeometricBrownianMotion.sigma gbm_flat = 0) by reflexivity.
  do 4 (split; [assumption|]).
  exact (gbm_zero_volatility (G := counter) gbm_flat 100 1 3 5 None false
           (Some 42%Z) 0%Z Hseed Hm HT Hsigma).
Defined.

Lemma gbm_zero_horizon_witness :
  seed_ok (Some 42%Z) ∧ (1 ≤ 5)%nat
  ∧ ∃ (s : np.arr2) (g' : Z),
      GeometricBrownianMotion.simulate (G := counter) gbm_example 100 0 3 5 None
        false (Some 42%Z) 0%Z = (Ok s, g')
      ∧ shape s (5 + 1) 3
      ∧ Forall (Forall (λ e, e = np.real 100)) s.
Proof.
  assert (Hseed : seed_ok (Some 42%Z)) by (cbn; lia).
  assert (Hm : (1 ≤ 5)%nat) by lia.
  do 2 (split; [assumption|]).
  exact (gbm_zero_horizon (G := counter) gbm_example 100 3 5 None false
           (Some 42%Z) 0%Z Hseed Hm).
Defined.

Lemma heston_zero_horizon_witness :
  seed_ok (Some 7%Z) ∧ (1 ≤ 5)%nat ∧ -1 <= HestonProcess.rho heston_example <= 1
  ∧ ∃ g' : Z,
      HestonProcess.simulate (G := counter) heston_example 100 (-0.04) 0 1 5 true
        false (Some 7%Z) 0%Z
      = (Ok (HestonProcess.PricesAndVol
               (replicate (5 + 1) (replicate 1 (np.real 100)))
               (replicate (5 + 1) (replicate 1 (np.real (Rabs (-0.04)))))), g').
Proof.
  assert (Hseed : seed_ok (Some 7%Z)) by (cbn; lia).
  assert (Hm : (1 ≤ 5)%nat) by lia.
  assert (Hrho : -1 <= HestonProcess.rho heston_example <= 1) by (cbn; lra).
  do 3 (split; [assumption|]).
  exact (heston_zero_horizon (G := counter) heston_example 100 (-0.04) 1 5 false
           (Some 7%Z) 0%Z Hseed Hm Hrho).
Defined.

(** ** [HestonProcess] without volatility of the variance *)




Section Heston_zero_eta.
Context `{G : Generator}.


(** X17.  A call of either simulator with a non-zero seed NumPy accepts
    returns the same result and leaves the generator in the same state
    whatever its state before, so that a later call without a seed (or with
    [seed=0]) is reproducible too. *)
Theorem seeding_carries_over (gbm : GeometricBrownianMotion.t) (heston : HestonProcess.t)
    (s0 v0 T : R) (n m : nat) (gbm_v0 : option R) (return_vol antithetic : bool)
    (seed : Z) (g1 g2 : rng) :
  seed ≠ 0%Z → (0 ≤ seed ≤ 2 ^ 32 - 1)%Z →
  GeometricBrownianMotion.simulate gbm s0 T n m gbm_v0 antithetic (Some seed) g1
  = GeometricBrownianMotion.simulate gbm s0 T n m gbm_v0 antithetic (Some seed) g2
  ∧ HestonProcess.simulate heston s0 v0 T n m return_vol antithetic (Some seed) g1
    = HestonProcess.simulate heston s0 v0 T n m return_vol antithetic (Some seed) g2
  ∧ HestonProcess.simulate heston s0 v0 T n m return_vol antithetic None
      (GeometricBrownianMotion.simulate gbm s0 T n m gbm_v0 antithetic (Some seed) g1).2
    = HestonProcess.simulate heston s0 v0 T n m return_vol antithetic None
        (GeometricBrownianMotion.simulate gbm s0 T n m gbm_v0 antithetic (Some seed) g2).2.
Proof.
  intros Hnz Hrange.
  pose proof (seed_guard_truthy_ok seed g1 Hnz Hrange) as H1.
  pose proof (seed_guard_truthy_ok seed g2 Hnz Hrange) as H2.
  assert (Hgbm :
    GeometricBrownianMotion.simulate gbm s0 T n m gbm_v0 antithetic (Some seed) g1
    = GeometricBrownianMotion.simulate gbm s0 T n m gbm_v0 antithetic (Some seed) g2).
  { unfold GeometricBrownianMotion.simulate, GeometricBrownianMotion.brownian.
    rewrite !bind_assoc. by rewrite (bind_ok _ _ _ _ _ H1), (bind_ok _ _ _ _ _ H2). }
  split; [exact Hgbm|]. split; [|by rewrite Hgbm].
  unfold HestonProcess.simulate.
  by rewrite (bind_ok _ _ _ _ _ H1), (bind_ok _ _ _ _ _ H2).
Qed.

End Heston_zero_eta.


Lemma seeding_carries_over_witness :
  42%Z ≠ 0%Z ∧ (0 ≤ 42 ≤ 2 ^ 32 - 1)%Z
  ∧ GeometricBrownianMotion.simulate (G := counter) gbm_example 100 1 3 5 None false
      (Some 42%Z) 0%Z
    = GeometricBrownianMotion.simulate (G := counter) gbm_example 100 1 3 5 None false
        (Some 42%Z) 9%Z
  ∧ HestonProcess.simulate (G := counter) heston_example 100 0.04 1 3 5 true false
      (Some 42%Z) 0%Z
    = HestonProcess.simulate (G := counter) heston_example 100 0.04 1 3 5 true false
        (Some 42%Z) 9%Z
  ∧ HestonProcess.simulate (G := counter) heston_example 100 0.04 1 3 5 true false None
      (GeometricBrownianMotion.simulate (G := counter) gbm_example 100 1 3 5 None false
         (Some 42%Z) 0%Z).2
    = HestonProcess.simulate (G := counter) heston_example 100 0.04 1 3 5 true false None
        (GeometricBrownianMotion.simulate (G := counter) gbm_example 100 1 3 5 None false
           (Some 42%Z) 9%Z).2.
Proof.
  assert (Hnz : 42%Z ≠ 0%Z) by lia.
  assert (Hrange : (0 ≤ 42 ≤ 2 ^ 32 - 1)%Z) by lia.
  do 2 (split; [assumption|]).
  exact (seeding_carries_over (G := counter) gbm_example heston_example 100 0.04 1 3 5
           None true false 42%Z 0%Z 9%Z Hnz Hrange).
Defined.

Lemma milstein_term_before_fold_witness :
  seed_ok (Some 7%Z) ∧ (1 ≤ 5)%nat
  ∧ guarded_state (G := counter) (Some 7%Z) 0%Z = guarded_state (G := counter) (Some 7%Z) 5%Z
  ∧ ∃ (z1 s_on v_on s_off v_off : np.arr2) (g' : Z),
      HestonProcess.simulate (G := counter) (with_milstein true heston_example)
        100 0.04 1 1 5 true false (Some 7%Z) 0%Z
      = (Ok (HestonProcess.PricesAndVol s_on v_on), g')
      ∧ HestonProcess.simulate (G := counter) (with_milstein false heston_example)
          100 0.04 1 1 5 true false (Some 7%Z) 5%Z
        = (Ok (HestonProcess.PricesAndVol s_off v_off), g')
      ∧ ∀ zr : np.arr1, z1 !! 0%nat = Some zr →
          v_on !! 1%nat
          = Some (absn <$>
                    zip_with (λ u z, u + milstein_term heston_example (1 / INR 5) z)%np
                      (zip_with
                         (HestonProcess.variance_update
                            (with_milstein false heston_example) (1 / INR 5))
                         (replicate 1 (np.real 0.04)) zr) zr)
          ∧ v_off !! 1%nat
            = Some (absn <$>
                      zip_with
                        (HestonProcess.variance_update
                           (with_milstein false heston_example) (1 / INR 5))
                        (replicate 1 (np.real 0.04)) zr).
Proof.
  assert (Hseed : seed_ok (Some 7%Z)) by (cbn; lia).
  assert (Hm : (1 ≤ 5)%nat) by lia.
  assert (Hg : guarded_state (G := counter) (Some 7%Z) 0%Z
               = guarded_state (G := counter) (Some 7%Z) 5%Z) by reflexivity.
  do 3 (split; [assumption|]).
  destruct (milstein_term_before_fold (G := counter) heston_example 100 0.04 1 1 5
              false (Some 7%Z) 0%Z 5%Z Hseed Hm Hg)
    as (z1 & z2 & s_on & v_on & s_off & v_off & g' & _ & _ & Hon & Hoff & Hrow1 & _).
  exists z1, s_on, v_on, s_off, v_off, g'.
  split; [exact Hon|]. split; [exact Hoff | exact Hrow1].
Defined.
